(** * intuit-cad: SAML assertion signing, token exchange and client cache

    A shallow embedding of the Go package [intuit]:
    - the SAML 2.0 assertion builder and its xmldsig signer
      ([samlRequestID], [NewAssertion], [Assertion.Sign],
      [signedInfo.signatureValue]);
    - the OAuth token exchange and the per-customer client cache
      ([NewClient], [Client.Init], [Client.loadOAuthUserConfig]);
    - the JSON timestamp decoder ([unixTimestampMillis.UnmarshalJSON]).

    Go values are modelled as follows.  A [string] or [[]byte] is a Rocq
    [string] (a sequence of 8-bit characters).  An [error] is identified
    with the text of its [Error()] method.  A [time.Time] is the number of
    nanoseconds since the Unix epoch and a [time.Duration] a number of
    nanoseconds, both in [Z].  A function returning [(T, error)] returns
    [error + T]; a function returning only [error] returns [option error]
    ([None] is [nil]).  A panic is the [Panic] outcome.  Code that reads the
    clock or the random source, talks to the network or touches the
    package-level client map is a state transformer over [World]. *)

From Stdlib Require Import ZArith Lia Ascii String List.
From Stdlib.Strings Require Import Byte.
From stdpp Require Import base option list strings gmap pretty.

#[local] Open Scope Z_scope.

(** ** Go basics *)

Definition error := string.

Inductive Outcome (A : Type) : Type :=
| Val (a : A)
| Panic (msg : string).
Arguments Val {A} a.
Arguments Panic {A} msg.

Definition Time := Z.
Definition Duration := Z.

Definition time_Second : Duration := 1000000000.
Definition time_Minute : Duration := 60 * time_Second.

(** [t.Add(d)] *)
Definition time_Add (t : Time) (d : Duration) : Time := t + d.

(** [time.Unix(sec, nsec)] *)
Definition time_Unix (sec nsec : Z) : Time := sec * time_Second + nsec.

(** ** [fmt] and [strings] helpers used by [samlRequestID] *)

(** The digit table of [fmt]'s [%x] verb. *)
Definition ldigits : string := "0123456789abcdef".

Definition ldigit (n : N) : ascii :=
  default "0"%char (String.get (N.to_nat n) ldigits).

(** [%x] of one byte: the high nibble, then the low nibble. *)
Definition fmt_x_byte (b : byte) : string :=
  String (ldigit (N.shiftr (Byte.to_N b) 4))
    (String (ldigit (N.land (Byte.to_N b) 15)) EmptyString).

(** [%x] of a byte slice. *)
Fixpoint fmt_x (bs : list byte) : string :=
  match bs with
  | [] => EmptyString
  | b :: bs' => fmt_x_byte b +:+ fmt_x bs'
  end.

(** [strings.Replace(s, old, new, -1)] for a one-byte [old]: every
    occurrence is replaced. *)
Fixpoint strings_Replace (s : string) (old : ascii) (new : string) : string :=
  match s with
  | EmptyString => EmptyString
  | String c s' =>
      if Ascii.eqb c old then new +:+ strings_Replace s' old new
      else String c (strings_Replace s' old new)
  end.

(** ** [github.com/nu7hatch/gouuid] *)

(** [type UUID [16]byte] *)
Definition UUID := list byte.

(** [func (u *UUID) String() string]:
    [fmt.Sprintf("%x-%x-%x-%x-%x", u[0:4], u[4:6], u[6:8], u[8:10], u[10:])] *)
Definition UUID_String (u : UUID) : string :=
  fmt_x (take 4 u) +:+ "-" +:+ fmt_x (take 2 (drop 4 u)) +:+ "-" +:+
  fmt_x (take 2 (drop 6 u)) +:+ "-" +:+ fmt_x (take 2 (drop 8 u)) +:+ "-" +:+
  fmt_x (drop 10 u).

(** The part of [samlRequestID] after the UUID has been drawn:
    [fmt.Sprintf("_%s", strings.Replace(refID.String(), "-", "", -1))] *)
Definition refID_of_uuid (u : UUID) : string :=
  "_" +:+ strings_Replace (UUID_String u) "-"%char "".

(** ** xmldsig and SAML constants *)

Definition C14N : string := "http://www.w3.org/2001/10/xml-exc-c14n#".
Definition RSASHA1 : string := "http://www.w3.org/2000/09/xmldsig#rsa-sha1".
Definition XMLDSIGNS : string := "http://www.w3.org/2000/09/xmldsig#enveloped-signature".
Definition SHA1 : string := "http://www.w3.org/2000/09/xmldsig#sha1".

Definition classUnspecified : string := "urn:oasis:names:tc:SAML:2.0:ac:classes:unspecified".
Definition nameIDFormatUnspecified : string := "urn:oasis:names:tc:SAML:1.1:nameid-format:unspecified".
Definition bearerToken : string := "urn:oasis:names:tc:SAML:2.0:cm:bearer".

(** ** The assertion data model *)

Record algorithm := { Algorithm : string }.

Record authnContext := { ClassRef : string }.

Record authnStatement := {
  AuthnInstance : Time;
  SessionIndex : string;
  Context : authnContext
}.

Record conditions := {
  NotBefore : Time;
  NotOnOrAfter : Time;
  AudienceRestriction : string
}.

Record nameID := { Format : string; Value : string }.

Record subjectConfirmation := { Method : string }.

Record subject := {
  NameID : nameID;
  SubjectConfirmation : subjectConfirmation
}.

Record reference := {
  URI : string;
  Transforms : list algorithm;
  DigestMethod : algorithm;
  DigestValue : string
}.

Record signedInfo := {
  CanonicalizationMethod : algorithm;
  SignatureMethod : algorithm;
  Reference : reference
}.

Record signature := {
  SignedInfo : signedInfo;
  SignatureValue : string
}.

(** [Signature] is a pointer in the source: [None] is [nil]. *)
Record Assertion := {
  RefID : string;
  IssueInstant : Time;
  Version : string;
  Issuer : string;
  Signature : option signature;
  Subject : subject;
  Conditions : conditions;
  AuthnStatement : authnStatement
}.

(** The assignment [a.Signature = s]. *)
Definition set_Signature (a : Assertion) (s : option signature) : Assertion :=
  {| RefID := RefID a; IssueInstant := IssueInstant a; Version := Version a;
     Issuer := Issuer a; Signature := s; Subject := Subject a;
     Conditions := Conditions a; AuthnStatement := AuthnStatement a |}.

(** ** HTTP and OAuth data *)

(** [url.Values] and [http.Header]: [map[string][]string]. *)
Abbreviation Values := (gmap string (list string)).

(** [v.Set(key, value)] *)
Definition Values_Set (v : Values) (key value : string) : Values :=
  <[key := [value]]> v.

(** [v.Get(key)]: the first value of the key, or the empty string. *)
Definition Values_Get (v : Values) (key : string) : string :=
  match v !! key with
  | Some (x :: _) => x
  | _ => ""
  end.

Record Request := { req_url : string; req_form : Values }.

Record Response := {
  Status : string;
  StatusCode : Z;
  Header : Values;
  Body : string
}.

Definition http_StatusOK : Z := 200.

(** [rsa.PrivateKey]: modulus and exponents. *)
Record rsa_PrivateKey := { rsa_N : Z; rsa_E : Z; rsa_D : Z }.

(** [crypto.Hash] *)
Variant crypto_Hash := crypto_SHA1 | crypto_SHA256.

(** [oauth1a.ClientConfig], [oauth1a.UserConfig] and the signer. *)
Record ClientConfig := { cc_ConsumerKey : string; cc_ConsumerSecret : string }.
Record UserConfig := { AccessTokenKey : string; AccessTokenSecret : string }.
Variant Signer := HmacSha1Signer.

(** [oauth1a.NewAuthorizedConfig(token, secret)] *)
Definition NewAuthorizedConfig (token secret : string) : UserConfig :=
  {| AccessTokenKey := token; AccessTokenSecret := secret |}.

(** ** The platform

    Library and environment functions the package calls and does not
    define.  [uuid_NewV4 n] is the result of the [n]-th draw from
    [crypto/rand]; [http_PostForm h url v] is what the network answers to
    the form POST of [v] to [url] after the POSTs [h] made so far. *)
Class Platform := {
  xml_Marshal_Assertion : Assertion -> error + string;
  xml_Marshal_signedInfo : signedInfo -> error + string;
  sha1_Sum : string -> string;
  base64_StdEncoding : string -> string;
  base64_URLEncoding : string -> string;
  rsa_SignPKCS1v15 : rsa_PrivateKey -> crypto_Hash -> string -> error + string;
  uuid_NewV4 : nat -> error + UUID;
  uuid_NewV4_len : forall n u, uuid_NewV4 n = inr u -> length u = 16%nat;
  http_PostForm : list Request -> string -> Values -> error + Response;
  url_QueryUnescape : string -> string * option error;
  url_ParseQuery : string -> Values
}.

(** ** Clients and the package state *)

(** [PrivateKey] is a pointer in the source ([None] is [nil]), and so are
    [clientConfig] and [userConfig]; [signer] is an interface value.  The
    field [HTTPClient] is left out: the token exchange goes through
    [http.PostForm], not through it. *)
Record Client := {
  CustomerID : string;
  ConsumerKey : string;
  ConsumerSecret : string;
  SAMLProviderID : string;
  PrivateKey : option rsa_PrivateKey;
  initialized : bool;
  clientConfig : option ClientConfig;
  userConfig : option UserConfig;
  signer : option Signer
}.

Definition set_clientConfig (c : Client) (x : option ClientConfig) : Client :=
  {| CustomerID := CustomerID c; ConsumerKey := ConsumerKey c;
     ConsumerSecret := ConsumerSecret c; SAMLProviderID := SAMLProviderID c;
     PrivateKey := PrivateKey c; initialized := initialized c;
     clientConfig := x; userConfig := userConfig c; signer := signer c |}.

Definition set_signer (c : Client) (x : option Signer) : Client :=
  {| CustomerID := CustomerID c; ConsumerKey := ConsumerKey c;
     ConsumerSecret := ConsumerSecret c; SAMLProviderID := SAMLProviderID c;
     PrivateKey := PrivateKey c; initialized := initialized c;
     clientConfig := clientConfig c; userConfig := userConfig c; signer := x |}.

Definition set_userConfig (c : Client) (x : option UserConfig) : Client :=
  {| CustomerID := CustomerID c; ConsumerKey := ConsumerKey c;
     ConsumerSecret := ConsumerSecret c; SAMLProviderID := SAMLProviderID c;
     PrivateKey := PrivateKey c; initialized := initialized c;
     clientConfig := clientConfig c; userConfig := x; signer := signer c |}.

Definition set_initialized (c : Client) (x : bool) : Client :=
  {| CustomerID := CustomerID c; ConsumerKey := ConsumerKey c;
     ConsumerSecret := ConsumerSecret c; SAMLProviderID := SAMLProviderID c;
     PrivateKey := PrivateKey c; initialized := x;
     clientConfig := clientConfig c; userConfig := userConfig c; signer := signer c |}.

(** The package-level variables ([clients], [DefaultConsumerKey], ...)
    together with the environment: the clock [now], the number [draws] of
    UUIDs drawn so far, the pending [time.AfterFunc] timers (deadline and
    the customer id the callback deletes) and the log [posts] of the form
    POSTs made, oldest first.  [clientsMu] is not a field: [NewClient] and
    the timer callback hold it from their first to their last statement, so
    each of them is one atomic transition of the world. *)
Record World := {
  now : Time;
  draws : nat;
  clients : gmap string Client;
  timers : list (Time * string);
  posts : list Request;
  DefaultConsumerKey : string;
  DefaultConsumerSecret : string;
  DefaultSAMLProviderID : string;
  DefaultPrivateKey : option rsa_PrivateKey
}.

Definition set_draws (w : World) (n : nat) : World :=
  {| now := now w; draws := n; clients := clients w; timers := timers w;
     posts := posts w; DefaultConsumerKey := DefaultConsumerKey w;
     DefaultConsumerSecret := DefaultConsumerSecret w;
     DefaultSAMLProviderID := DefaultSAMLProviderID w;
     DefaultPrivateKey := DefaultPrivateKey w |}.

Definition set_clients (w : World) (m : gmap string Client) : World :=
  {| now := now w; draws := draws w; clients := m; timers := timers w;
     posts := posts w; DefaultConsumerKey := DefaultConsumerKey w;
     DefaultConsumerSecret := DefaultConsumerSecret w;
     DefaultSAMLProviderID := DefaultSAMLProviderID w;
     DefaultPrivateKey := DefaultPrivateKey w |}.

Definition set_timers (w : World) (l : list (Time * string)) : World :=
  {| now := now w; draws := draws w; clients := clients w; timers := l;
     posts := posts w; DefaultConsumerKey := DefaultConsumerKey w;
     DefaultConsumerSecret := DefaultConsumerSecret w;
     DefaultSAMLProviderID := DefaultSAMLProviderID w;
     DefaultPrivateKey := DefaultPrivateKey w |}.

Definition set_posts (w : World) (l : list Request) : World :=
  {| now := now w; draws := draws w; clients := clients w; timers := timers w;
     posts := l; DefaultConsumerKey := DefaultConsumerKey w;
     DefaultConsumerSecret := DefaultConsumerSecret w;
     DefaultSAMLProviderID := DefaultSAMLProviderID w;
     DefaultPrivateKey := DefaultPrivateKey w |}.

(** The world when the package has been loaded, at time [t0]. *)
Definition init_world (t0 : Time) : World :=
  {| now := t0; draws := 0; clients := ∅; timers := []; posts := [];
     DefaultConsumerKey := ""; DefaultConsumerSecret := "";
     DefaultSAMLProviderID := ""; DefaultPrivateKey := None |}.

(** ** The monad of world transformers with panics *)

Definition M (A : Type) : Type := World -> Outcome A * World.

#[global] Instance M_ret : MRet M := fun A a w => (Val a, w).

#[global] Instance M_bind : MBind M := fun A B f m w =>
  match m w with
  | (Val a, w') => f a w'
  | (Panic msg, w') => (Panic msg, w')
  end.

Definition get_world : M World := fun w => (Val w, w).

Definition panic {A : Type} (msg : string) : M A := fun w => (Panic msg, w).

(** [time.Now()] *)
Definition time_Now : M Time := fun w => (Val (now w), w).

(** [time.AfterFunc(d, func() { ...; delete(clients, customerID) })] *)
Definition time_AfterFunc_delete (d : Duration) (customerID : string) : M unit :=
  fun w => (Val tt, set_timers w ((time_Add (now w) d, customerID) :: timers w)).

(** [clients[customerID] = client] *)
Definition clients_store (customerID : string) (client : Client) : M unit :=
  fun w => (Val tt, set_clients w (<[customerID := client]> (clients w))).

(** ** The package *)

Definition AccessTokenEndpoint : string :=
  "https://oauth.intuit.com/oauth/v1/get_access_token_by_saml".

Section Package.
Context `{Platform}.

(** [uuid.NewV4()] is the next draw of the world. *)
Definition uuid_NewV4_draw : M (error + UUID) :=
  fun w => (Val (uuid_NewV4 (draws w)), set_draws w (S (draws w))).

(** [http.PostForm(url, values)]: the request is logged, whatever the
    answer. *)
Definition PostForm (url : string) (values : Values) : M (error + Response) :=
  fun w => (Val (http_PostForm (posts w) url values),
            set_posts w (posts w ++ [{| req_url := url; req_form := values |}])).

Definition samlRequestID : M string :=
  r ← uuid_NewV4_draw;
  match r with
  | inl err => panic err
  | inr refID => mret (refID_of_uuid refID)
  end.

Definition NewAssertion (issuer customerID : string) (lifetime : Duration)
  : M Assertion :=
  now ← time_Now;
  let expiration := time_Add now lifetime in
  refID ← samlRequestID;
  mret {|
    RefID := refID;
    IssueInstant := now;
    Version := "2.0";
    Issuer := issuer;
    Signature := None;
    Conditions := {|
      NotBefore := now;
      NotOnOrAfter := expiration;
      AudienceRestriction := issuer |};
    Subject := {|
      NameID := {| Format := nameIDFormatUnspecified; Value := customerID |};
      SubjectConfirmation := {| Method := bearerToken |} |};
    AuthnStatement := {|
      AuthnInstance := now;
      SessionIndex := refID;
      Context := {| ClassRef := classUnspecified |} |}
  |}.

(** [func (si signedInfo) signatureValue(key *rsa.PrivateKey) (string, error)].
    [rsa.SignPKCS1v15] dereferences [key]: a [nil] key panics. *)
Definition signatureValue (si : signedInfo) (key : option rsa_PrivateKey)
  : Outcome (error + string) :=
  match xml_Marshal_signedInfo si with
  | inl err => Val (inl err)
  | inr signedInfoXML =>
      let digest := sha1_Sum signedInfoXML in
      match key with
      | None => Panic "runtime error: invalid memory address or nil pointer dereference"
      | Some key =>
          match rsa_SignPKCS1v15 key crypto_SHA1 digest with
          | inl err => Val (inl err)
          | inr signature => Val (inr (base64_StdEncoding signature))
          end
      end
  end.

(** [func (a *Assertion) Sign(key *rsa.PrivateKey) error].  The first
    component of the result is the assertion [a] points to when the call
    is over. *)
Definition Sign (a : Assertion) (key : option rsa_PrivateKey)
  : Assertion * Outcome (option error) :=
  match xml_Marshal_Assertion a with
  | inl err => (a, Val (Some err))
  | inr assertionStr =>
      let si := {|
        CanonicalizationMethod := {| Algorithm := C14N |};
        SignatureMethod := {| Algorithm := RSASHA1 |};
        Reference := {|
          URI := "#" +:+ RefID a;
          Transforms := [ {| Algorithm := XMLDSIGNS |}; {| Algorithm := C14N |} ];
          DigestMethod := {| Algorithm := SHA1 |};
          DigestValue := base64_StdEncoding (sha1_Sum assertionStr) |} |} in
      match signatureValue si key with
      | Panic msg => (a, Panic msg)
      | Val (inl err) => (a, Val (Some err))
      | Val (inr sigStr) =>
          let signature := {| SignedInfo := si; SignatureValue := sigStr |} in
          (set_Signature a (Some signature), Val None)
      end
  end.

(** [assertion.Sign(c.PrivateKey)] on the local variable [assertion]. *)
Definition Sign_local (a : Assertion) (key : option rsa_PrivateKey)
  : M (Assertion * option error) :=
  fun w =>
    match Sign a key with
    | (a', Val err) => (Val (a', err), w)
    | (_, Panic msg) => (Panic msg, w)
    end.

(** [func (c *Client) loadOAuthUserConfig() error] of client.go.  The
    first component of the result is the client [c] points to when the call
    is over.  [resp.Body] is what [ioutil.ReadAll] returns of it. *)
Definition loadOAuthUserConfig (c : Client) : M (Client * option error) :=
  if decide (CustomerID c = "") then
    mret (c, Some "customer id must not be empty")
  else
    assertion ← NewAssertion (SAMLProviderID c) (CustomerID c) (time_Minute * 10);
    '(assertion, err) ← Sign_local assertion (PrivateKey c);
    match err with
    | Some err => mret (c, Some ("unable to sign assertion: " +:+ err))
    | None =>
        match xml_Marshal_Assertion assertion with
        | inl err => mret (c, Some ("unable to marshal assertion: " +:+ err))
        | inr samlString =>
            let values := Values_Set ∅ "saml_assertion" (base64_URLEncoding samlString) in
            let values := Values_Set values "oauth_consumer_key" (ConsumerKey c) in
            r ← PostForm AccessTokenEndpoint values;
            match r with
            | inl err => mret (c, Some ("token request error: " +:+ err))
            | inr resp =>
                if decide (StatusCode resp ≠ http_StatusOK) then
                  let errmsg :=
                    fst (url_QueryUnescape (Values_Get (Header resp) "Www-Authenticate")) in
                  mret (c, Some ("authentication error: " +:+ Status resp +:+ " " +:+ errmsg))
                else
                  let body := Body resp in
                  let respQuery := url_ParseQuery body in
                  let token := Values_Get respQuery "oauth_token" in
                  let secret := Values_Get respQuery "oauth_token_secret" in
                  mret (set_userConfig c (Some (NewAuthorizedConfig token secret)), None)
            end
        end
    end.

(** [func (c *Client) Init() error] *)
Definition Init (c : Client) : M (Client * option error) :=
  if initialized c then mret (c, None)
  else
    w ← get_world;
    let c := set_clientConfig c (Some {|
      cc_ConsumerKey := DefaultConsumerKey w;
      cc_ConsumerSecret := DefaultConsumerSecret w |}) in
    let c := set_signer c (Some HmacSha1Signer) in
    '(c, err) ← loadOAuthUserConfig c;
    match err with
    | Some err => mret (c, Some err)
    | None => mret (set_initialized c true, None)
    end.

(** [func NewClient(customerID string)] of client.go, which returns a
    client pointer and an error,
    between [clientsMu.Lock()] and the deferred [clientsMu.Unlock()]. *)
Definition NewClient (customerID : string) : M (error + Client) :=
  w ← get_world;
  match clients w !! customerID with
  | Some client => mret (inr client)
  | None =>
      let client := {|
        CustomerID := customerID;
        ConsumerKey := DefaultConsumerKey w;
        ConsumerSecret := DefaultConsumerSecret w;
        SAMLProviderID := DefaultSAMLProviderID w;
        PrivateKey := DefaultPrivateKey w;
        initialized := false;
        clientConfig := None;
        userConfig := None;
        signer := None |} in
      '(client, err) ← Init client;
      match err with
      | Some err => mret (inl err)
      | None =>
          _ ← clients_store customerID client;
          _ ← time_AfterFunc_delete (time_Minute * 30) customerID;
          mret (inr client)
      end
  end.

End Package.

(** The earlier revision of the client (the second part of
    financial-institutions.go): no cache, and an empty customer id is a
    panic. *)
Module Legacy.
Section Package.
Context `{Platform}.

Definition loadOAuthUserConfig (c : Client) : M (Client * option error) :=
  if decide (CustomerID c = "") then
    panic "customer id must not be empty"
  else
    assertion ← NewAssertion (SAMLProviderID c) (CustomerID c) (time_Minute * 10);
    '(assertion, err) ← Sign_local assertion (PrivateKey c);
    match err with
    | Some err => mret (c, Some ("unable to sign assertion: " +:+ err))
    | None =>
        match xml_Marshal_Assertion assertion with
        | inl err => mret (c, Some ("unable to marshal assertion: " +:+ err))
        | inr samlString =>
            let values := Values_Set ∅ "saml_assertion" (base64_URLEncoding samlString) in
            let values := Values_Set values "oauth_consumer_key" (ConsumerKey c) in
            r ← PostForm AccessTokenEndpoint values;
            match r with
            | inl err => mret (c, Some ("token request error: " +:+ err))
            | inr resp =>
                if decide (StatusCode resp ≠ http_StatusOK) then
                  let errmsg :=
                    fst (url_QueryUnescape (Values_Get (Header resp) "Www-Authenticate")) in
                  mret (c, Some ("authentication error: " +:+ Status resp +:+ " " +:+ errmsg))
                else
                  let body := Body resp in
                  let respQuery := url_ParseQuery body in
                  let token := Values_Get respQuery "oauth_token" in
                  let secret := Values_Get respQuery "oauth_token_secret" in
                  mret (set_userConfig c (Some (NewAuthorizedConfig token secret)), None)
            end
        end
    end.

Definition Init (c : Client) : M (Client * option error) :=
  if initialized c then mret (c, None)
  else
    w ← get_world;
    let c := set_clientConfig c (Some {|
      cc_ConsumerKey := DefaultConsumerKey w;
      cc_ConsumerSecret := DefaultConsumerSecret w |}) in
    let c := set_signer c (Some HmacSha1Signer) in
    '(c, err) ← loadOAuthUserConfig c;
    match err with
    | Some err => mret (c, Some err)
    | None => mret (set_initialized c true, None)
    end.

Definition NewClient (customerID : string) : M (error + Client) :=
  w ← get_world;
  let client := {|
    CustomerID := customerID;
    ConsumerKey := DefaultConsumerKey w;
    ConsumerSecret := DefaultConsumerSecret w;
    SAMLProviderID := DefaultSAMLProviderID w;
    PrivateKey := DefaultPrivateKey w;
    initialized := false;
    clientConfig := None;
    userConfig := None;
    signer := None |} in
  '(client, err) ← Init client;
  match err with
  | Some err => mret (inl err)
  | None => mret (inr client)
  end.

End Package.
End Legacy.

(** ** The other transitions of the world *)

(** [func SetDefaultCredentials(consumerKey, consumerSecret, samlProviderID string)] *)
Definition SetDefaultCredentials (consumerKey consumerSecret samlProviderID : string)
  (w : World) : World :=
  {| now := now w; draws := draws w; clients := clients w; timers := timers w;
     posts := posts w; DefaultConsumerKey := consumerKey;
     DefaultConsumerSecret := consumerSecret;
     DefaultSAMLProviderID := samlProviderID;
     DefaultPrivateKey := DefaultPrivateKey w |}.

(** [SetDefaultPrivateKeyFromPEM] when the PEM data decode to [key]. *)
Definition SetDefaultPrivateKey (key : rsa_PrivateKey) (w : World) : World :=
  {| now := now w; draws := draws w; clients := clients w; timers := timers w;
     posts := posts w; DefaultConsumerKey := DefaultConsumerKey w;
     DefaultConsumerSecret := DefaultConsumerSecret w;
     DefaultSAMLProviderID := DefaultSAMLProviderID w;
     DefaultPrivateKey := Some key |}.

(** The timer callbacks whose deadline has come by time [t] run
    ([delete(clients, customerID)]); the others stay pending. *)
Fixpoint fire_timers (t : Time) (tms : list (Time * string)) (m : gmap string Client)
  : list (Time * string) * gmap string Client :=
  match tms with
  | [] => ([], m)
  | (deadline, customerID) :: rest =>
      let (rest', m') := fire_timers t rest m in
      if deadline <=? t then (rest', delete customerID m')
      else ((deadline, customerID) :: rest', m')
  end.

(** The clock moves on by [d] and the timers due by then fire.  Calls of
    the package take no time of their own: time passes between them. *)
Definition advance (d : Duration) (w : World) : World :=
  let t := time_Add (now w) d in
  let (tms, m) := fire_timers t (timers w) (clients w) in
  {| now := t; draws := draws w; clients := m; timers := tms;
     posts := posts w; DefaultConsumerKey := DefaultConsumerKey w;
     DefaultConsumerSecret := DefaultConsumerSecret w;
     DefaultSAMLProviderID := DefaultSAMLProviderID w;
     DefaultPrivateKey := DefaultPrivateKey w |}.

(** One transition of the world: a call of [NewClient], the passing of
    time, or the setting of the defaults. *)
Inductive step `{Platform} : World -> World -> Prop :=
| step_NewClient customerID w :
    step w (NewClient customerID w).2
| step_advance d w :
    0 <= d -> step w (advance d w)
| step_SetDefaultCredentials consumerKey consumerSecret samlProviderID w :
    step w (SetDefaultCredentials consumerKey consumerSecret samlProviderID w)
| step_SetDefaultPrivateKey key w :
    step w (SetDefaultPrivateKey key w).

(** The worlds a program using the package can be in. *)
Definition reachable `{Platform} (w : World) : Prop :=
  exists t0, rtc step (init_world t0) w.

(** ** The JSON timestamp decoder (util.go) *)

(** [strconv.NumError], with its [Err] field one of [ErrSyntax] and
    [ErrRange]. *)
Variant strconv_Err := ErrSyntax | ErrRange.
Record NumError := { Func : string; Num : string; Err : strconv_Err }.

Definition byte_of (c : ascii) : Z := Z.of_N (N_of_ascii c).

Definition maxUint64 : Z := 2 ^ 64 - 1.

(** The loop of [strconv.ParseUint(s, 10, 64)]: [n] is the number read so
    far.  [n *= 10] cannot wrap once [n < cutoff]; [n + d] is computed
    modulo [2^64] as in the source. *)
Fixpoint ParseUint_loop (s : string) (n : Z) : Z * option strconv_Err :=
  match s with
  | EmptyString => (n, None)
  | String c s' =>
      let c := byte_of c in
      let lower := Z.lor c 32 in
      let d :=
        if (48 <=? c) && (c <=? 57) then Some (c - 48)
        else if (97 <=? lower) && (lower <=? 122) then Some (lower - 97 + 10)
        else None in
      match d with
      | None => (0, Some ErrSyntax)
      | Some d =>
          if d >=? 10 then (0, Some ErrSyntax)
          else if n >=? maxUint64 / 10 + 1 then (maxUint64, Some ErrRange)
          else
            let n := n * 10 in
            let n1 := (n + d) mod 2 ^ 64 in
            if (n1 <? n) || (n1 >? maxUint64) then (maxUint64, Some ErrRange)
            else ParseUint_loop s' n1
      end
  end.

(** [strconv.ParseUint(s, 10, 64)] *)
Definition ParseUint (s : string) : Z * option strconv_Err :=
  match s with
  | EmptyString => (0, Some ErrSyntax)
  | _ => ParseUint_loop s 0
  end.

(** The conversion [int64(x)]. *)
Definition int64 (x : Z) : Z := (x + 2 ^ 63) mod 2 ^ 64 - 2 ^ 63.

(** [strconv.ParseInt(s, 10, 64)] *)
Definition ParseInt (s : string) : Z * option NumError :=
  let fnParseInt := "ParseInt" in
  match s with
  | EmptyString => (0, Some {| Func := fnParseInt; Num := s; Err := ErrSyntax |})
  | String c0 rest =>
      let s0 := s in
      let '(neg, s) :=
        if Ascii.eqb c0 "+" then (false, rest)
        else if Ascii.eqb c0 "-" then (true, rest)
        else (false, s) in
      match ParseUint s with
      | (_, Some ErrSyntax) =>
          (0, Some {| Func := fnParseInt; Num := s0; Err := ErrSyntax |})
      | (un, _) =>
          let cutoff := 2 ^ 63 in
          if negb neg && (un >=? cutoff) then
            (int64 (cutoff - 1), Some {| Func := fnParseInt; Num := s0; Err := ErrRange |})
          else if neg && (un >? cutoff) then
            (int64 (- int64 cutoff), Some {| Func := fnParseInt; Num := s0; Err := ErrRange |})
          else
            let n := int64 un in
            let n := if neg then int64 (- n) else n in
            (n, None)
      end
  end.

(** [func (t *unixTimestampMillis) UnmarshalJSON(strTime []byte) error].
    The first component of the result is the time [t] points to when the
    call is over; [/] on [int64] truncates towards zero. *)
Definition UnmarshalJSON (t : Time) (strTime : string) : Time * option NumError :=
  match ParseInt strTime with
  | (_, Some err) => (t, Some err)
  | (intTime, None) => (time_Unix (intTime ÷ 1000) 0, None)
  end.

(** Decimal integer literals: an optional minus sign and one digit or
    more.  Every JSON integer is one; [json_int s] is its value. *)
Definition is_digit (c : ascii) : bool :=
  (48 <=? byte_of c) && (byte_of c <=? 57).

Fixpoint all_digits (s : string) : bool :=
  match s with
  | EmptyString => true
  | String c s' => is_digit c && all_digits s'
  end.

Fixpoint digits_value (s : string) (acc : Z) : Z :=
  match s with
  | EmptyString => acc
  | String c s' => digits_value s' (acc * 10 + (byte_of c - 48))
  end.

Definition digits (s : string) : bool :=
  match s with
  | EmptyString => false
  | _ => all_digits s
  end.

Definition json_int (s : string) : option Z :=
  match s with
  | EmptyString => None
  | String c r =>
      if Ascii.eqb c "-" then
        if digits r then Some (- digits_value r 0) else None
      else
        if digits s then Some (digits_value s 0) else None
  end.

(** The inputs [strconv.ParseInt] can read: an optional sign, then
    digits. *)
Definition signed_digits (s : string) : bool :=
  match s with
  | EmptyString => false
  | String c r =>
      if Ascii.eqb c "+" || Ascii.eqb c "-" then digits r else digits s
  end.

(** The range of [int64]. *)
Definition in_int64 (n : Z) : Prop := - 2 ^ 63 <= n < 2 ^ 63.

(** ** The vocabulary of the specification *)




(** [contains s sub]: [sub] occurs in [s] (as [strings.Contains]). *)
Definition contains (s sub : string) : Prop :=
  exists pre post, s = pre +:+ sub +:+ post.




(** The [SignedInfo] that [Sign] builds for the assertion [a] serialized as
    [assertionStr]. *)
Definition signedInfo_of `{Platform} (a : Assertion) (assertionStr : string)
  : signedInfo :=
  {| CanonicalizationMethod := {| Algorithm := C14N |};
     SignatureMethod := {| Algorithm := RSASHA1 |};
     Reference := {|
       URI := "#" +:+ RefID a;
       Transforms := [ {| Algorithm := XMLDSIGNS |}; {| Algorithm := C14N |} ];
       DigestMethod := {| Algorithm := SHA1 |};
       DigestValue := base64_StdEncoding (sha1_Sum assertionStr) |} |}.


(** The client [NewClient] hands to [loadOAuthUserConfig] on a cache
    miss: the defaults of the world, with the configuration and the signer
    that [Init] sets. *)
Definition fresh_client (customerID : string) (w : World) : Client :=
  {| CustomerID := customerID;
     ConsumerKey := DefaultConsumerKey w;
     ConsumerSecret := DefaultConsumerSecret w;
     SAMLProviderID := DefaultSAMLProviderID w;
     PrivateKey := DefaultPrivateKey w;
     initialized := false;
     clientConfig := Some {|
       cc_ConsumerKey := DefaultConsumerKey w;
       cc_ConsumerSecret := DefaultConsumerSecret w |};
     userConfig := None;
     signer := Some HmacSha1Signer |}.

(** What holds of the cache in every reachable world: the empty customer
    id has no entry, no customer id has two pending timers, and a pending
    timer belongs to a cached client. *)
Definition cache_inv (w : World) : Prop :=
  clients w !! "" = None /\
  NoDup (timers w).*2 /\
  (forall deadline customerID,
     (deadline, customerID) ∈ timers w -> is_Some (clients w !! customerID)).

(** ** A test platform

    Deterministic stand-ins for the library functions, to run the package on
    concrete inputs: a serializer that prints a few fields, tagged texts for
    the digest, encodings and the RSA signature, UUIDs made of one repeated
    byte, and a token endpoint given as a parameter. *)
Module Stub.

(** As [time.Time.MarshalText], the serializer refuses years after 9999. *)
Definition year_10000 : Time := 253402300800 * time_Second.

Definition xml_Assertion (a : Assertion) : error + string :=
  if year_10000 <=? IssueInstant a then
    inl "Time.MarshalText: year outside of range [0,9999]"
  else
    inr ("<Assertion ID='" +:+ RefID a +:+ "'><Issuer>" +:+ Issuer a +:+
         "</Issuer>" +:+
         match Signature a with
         | Some s => "<Signature>" +:+ SignatureValue s +:+ "</Signature>"
         | None => ""
         end +:+
         "<NameID>" +:+ Value (NameID (Subject a)) +:+ "</NameID></Assertion>").

Definition xml_signedInfo (si : signedInfo) : error + string :=
  inr ("<SignedInfo><Reference URI='" +:+ URI (Reference si) +:+ "'>" +:+
       DigestValue (Reference si) +:+ "</Reference></SignedInfo>").

Definition sha1 (s : string) : string := "sha1(" +:+ s +:+ ")".
Definition base64 (s : string) : string := "b64(" +:+ s +:+ ")".
Definition base64url (s : string) : string := "b64url(" +:+ s +:+ ")".

(** As [rsa.SignPKCS1v15], signing fails when the modulus is too short
    for the padded digest. *)
Definition sign (key : rsa_PrivateKey) (h : crypto_Hash) (digest : string)
  : error + string :=
  if rsa_N key <? 2 ^ 368 then inl "crypto/rsa: message too long for RSA key size"
  else inr ("rsa(" +:+ digest +:+ ")").

Definition uuid (n : nat) : error + UUID :=
  inr (replicate 16 (default x00 (Byte.of_N (N.of_nat n mod 256)))).

Lemma uuid_len (n : nat) (u : UUID) : uuid n = inr u -> length u = 16%nat.
Proof. intros [= <-]. reflexivity. Defined.

Definition unescape (s : string) : string * option error := (s, None).

Definition parse_query (body : string) : Values :=
  if decide (body = "oauth_token=T1&oauth_token_secret=S1") then
    {[ "oauth_token" := ["T1"]; "oauth_token_secret" := ["S1"] ]}
  else ∅.

Definition platform (endpoint : list Request -> string -> Values -> error + Response)
  : Platform :=
  {| xml_Marshal_Assertion := xml_Assertion;
     xml_Marshal_signedInfo := xml_signedInfo;
     sha1_Sum := sha1;
     base64_StdEncoding := base64;
     base64_URLEncoding := base64url;
     rsa_SignPKCS1v15 := sign;
     uuid_NewV4 := uuid;
     uuid_NewV4_len := uuid_len;
     http_PostForm := endpoint;
     url_QueryUnescape := unescape;
     url_ParseQuery := parse_query |}.

(** Token endpoints: one that grants a token, one that rejects the
    assertion, one that cannot be reached. *)
Definition endpoint_200 (h : list Request) (url : string) (v : Values)
  : error + Response :=
  inr {| Status := "200 OK"; StatusCode := 200; Header := ∅;
         Body := "oauth_token=T1&oauth_token_secret=S1" |}.

Definition endpoint_401 (h : list Request) (url : string) (v : Values)
  : error + Response :=
  inr {| Status := "401 Unauthorized"; StatusCode := 401;
         Header := {[ "Www-Authenticate" := ["OAuth oauth_problem=signature_invalid"] ]};
         Body := "" |}.

Definition endpoint_down (h : list Request) (url : string) (v : Values)
  : error + Response :=
  inl "dial tcp: i/o timeout".

Definition key : rsa_PrivateKey := {| rsa_N := 2 ^ 1024 - 105; rsa_E := 65537; rsa_D := 3 |}.
Definition short_key : rsa_PrivateKey := {| rsa_N := 2 ^ 64 - 59; rsa_E := 65537; rsa_D := 3 |}.

(** An assertion as [NewAssertion] builds it at time 0 from the first
    UUID. *)
Definition assertion : Assertion :=
  {| RefID := "_00000000000000000000000000000000";
     IssueInstant := 0;
     Version := "2.0";
     Issuer := "provider.1";
     Signature := None;
     Subject := {|
       NameID := {| Format := nameIDFormatUnspecified; Value := "alice" |};
       SubjectConfirmation := {| Method := bearerToken |} |};
     Conditions := {|
       NotBefore := 0;
       NotOnOrAfter := 600000000000;
       AudienceRestriction := "provider.1" |};
     AuthnStatement := {|
       AuthnInstance := 0;
       SessionIndex := "_00000000000000000000000000000000";
       Context := {| ClassRef := classUnspecified |} |} |}.

(** The package configured, at time [t0]. *)
Definition world (t0 : Time) : World :=
  SetDefaultPrivateKey key
    (SetDefaultCredentials "consumer-key" "consumer-secret" "provider.1" (init_world t0)).

(** The client that the first call [NewClient "alice"] returns when the
    endpoint grants the token. *)
Definition client : Client :=
  {| CustomerID := "alice";
     ConsumerKey := "consumer-key";
     ConsumerSecret := "consumer-secret";
     SAMLProviderID := "provider.1";
     PrivateKey := Some key;
     initialized := true;
     clientConfig := Some {|
       cc_ConsumerKey := "consumer-key";
       cc_ConsumerSecret := "consumer-secret" |};
     userConfig := Some {| AccessTokenKey := "T1"; AccessTokenSecret := "S1" |};
     signer := Some HmacSha1Signer |}.

(** The world after that call, made at time 0. *)
Definition world_1 : World :=
  (@NewClient (platform endpoint_200) "alice" (world 0)).2.

End Stub.

(** ** Test doubles for the random source and the XML serializer *)

Module StubXML.













End StubXML.

(** The value of a sign followed by digits, as [strconv.ParseInt] reads
    it. *)
Definition signed_value (s : string) : Z :=
  match s with
  | EmptyString => 0
  | String c r =>
      if Ascii.eqb c "+" then digits_value r 0
      else if Ascii.eqb c "-" then - digits_value r 0
      else digits_value s 0
  end.

(** ** [SetDefaultPrivateKeyFromPEM] *)

(** [encoding/pem] and [crypto/x509]: [pem_Decode] is the bytes of the
    first PEM block of the data, [None] when there is none. *)
Class PemPlatform := {
  pem_Decode : string -> option string;
  x509_ParsePKCS1PrivateKey : string -> error + rsa_PrivateKey
}.

(** The assignment [DefaultPrivateKey = key]. *)
Definition set_DefaultPrivateKey (w : World) (key : option rsa_PrivateKey) : World :=
  {| now := now w; draws := draws w; clients := clients w; timers := timers w;
     posts := posts w; DefaultConsumerKey := DefaultConsumerKey w;
     DefaultConsumerSecret := DefaultConsumerSecret w;
     DefaultSAMLProviderID := DefaultSAMLProviderID w;
     DefaultPrivateKey := key |}.

(** [func SetDefaultPrivateKeyFromPEM(pemData io.Reader) error].  The
    reader [pemData] is given by what [ioutil.ReadAll] returns of it.
    [x509.ParsePKCS1PrivateKey] returns a nil key with its error, and the
    source assigns both results before it looks at the error. *)
Definition SetDefaultPrivateKeyFromPEM `{PemPlatform} (pemData : error + string)
  : M (option error) :=
  fun w =>
    match pemData with
    | inl err => (Panic err, w)
    | inr pemBytes =>
        match pem_Decode pemBytes with
        | None => (Panic "unable to read PEM data", w)
        | Some block =>
            match x509_ParsePKCS1PrivateKey block with
            | inl err =>
                (Panic ("bad private key: " +:+ err), set_DefaultPrivateKey w None)
            | inr key => (Val None, set_DefaultPrivateKey w (Some key))
            end
        end
    end.

(** ** [TransactionList] (transactions.go) *)

(** [s[n:]] *)
Fixpoint string_drop (n : nat) (s : string) : string :=
  match n, s with
  | O, _ => s
  | S n', String _ s' => string_drop n' s'
  | S _, EmptyString => EmptyString
  end.

(** [strings.HasSuffix(s, suffix)]:
    [len(s) >= len(suffix) && s[len(s)-len(suffix):] == suffix] *)
Definition strings_HasSuffix (s suffix : string) : bool :=
  Nat.leb (String.length suffix) (String.length s) &&
  String.eqb (string_drop (String.length s - String.length suffix) s) suffix.

(** [encoding/json] for the transaction payload.  [Transaction] is the
    type of the decoded transactions.  [json_Unmarshal_object] decodes a
    JSON object into a [map[string]json.RawMessage], [json_Unmarshal_txns]
    a raw message into a [[]Transaction].  [range_order m] is the order in
    which a [range] loop visits the entries of the map [m]: any order, as
    Go leaves it unspecified. *)
Class JsonPlatform (Transaction : Type) := {
  json_Unmarshal_object : string -> error + gmap string string;
  json_Unmarshal_txns : string -> error + list Transaction;
  range_order : gmap string string -> list (string * string);
  range_order_perm : forall m, range_order m ≡ₚ map_to_list m
}.

Section TransactionList.
Context {Transaction : Type} `{JsonPlatform Transaction}.

(** The [range] loop of [TransactionList.UnmarshalJSON], over the entries
    still to visit.  [t] is the map the receiver refers to, [None] when
    the receiver is a nil map: the assignment [t[key] = txns] panics
    then.  The first component of the result is that map when the loop is
    over. *)
Fixpoint UnmarshalJSON_range (entries : list (string * string))
    (t : option (gmap string (list Transaction)))
  : option (gmap string (list Transaction)) * Outcome (option error) :=
  match entries with
  | [] => (t, Val None)
  | (key, rawMessage) :: entries' =>
      if negb (strings_HasSuffix key "Transactions") then
        UnmarshalJSON_range entries' t
      else
        match json_Unmarshal_txns rawMessage with
        | inl err => (t, Val (Some err))
        | inr txns =>
            match t with
            | None => (t, Panic "assignment to entry in nil map")
            | Some m => UnmarshalJSON_range entries' (Some (<[key := txns]> m))
            end
        end
  end.

(** [func (t TransactionList) UnmarshalJSON(data []byte) error] *)
Definition TransactionList_UnmarshalJSON
    (t : option (gmap string (list Transaction))) (data : string)
  : option (gmap string (list Transaction)) * Outcome (option error) :=
  match json_Unmarshal_object data with
  | inl err => (t, Val (Some err))
  | inr payload => UnmarshalJSON_range (range_order payload) t
  end.

End TransactionList.

(** ** The REST accessors *)

Definition BaseURL : string := "https://financialdatafeed.platform.intuit.com/v1".

(** [fmt]'s [%d] verb on an integer. *)
Definition fmt_d (n : Z) : string := pretty n.

(** An [http.Request], as far as the package uses it: [req_URL] is the URL
    given to [http.NewRequest], [req_RawQuery] the field [URL.RawQuery]. *)
Record ApiRequest := {
  req_Method : string;
  req_URL : string;
  req_RawQuery : string;
  req_Header : Values;
  req_Body : string
}.

(** [h.Add(key, value)] *)
Definition Header_Add (h : Values) (key value : string) : Values :=
  <[key := default [] (h !! key) ++ [value]]> h.

(** [req.Header.Add(key, value)] *)
Definition req_Header_Add (req : ApiRequest) (key value : string) : ApiRequest :=
  {| req_Method := req_Method req; req_URL := req_URL req;
     req_RawQuery := req_RawQuery req;
     req_Header := Header_Add (req_Header req) key value;
     req_Body := req_Body req |}.

(** [req.URL.RawQuery = query] *)
Definition set_RawQuery (req : ApiRequest) (query : string) : ApiRequest :=
  {| req_Method := req_Method req; req_URL := req_URL req;
     req_RawQuery := query; req_Header := req_Header req;
     req_Body := req_Body req |}.

(** The library functions and types of the accessors.  [JsonBody] is the
    type of the values given as request bodies ([None] is a nil
    interface); [Account], [InstitutionDetails] and [TransactionList] are
    the decoded payloads.  [signer_Sign s req cc uc] is the request after
    [s.Sign(req, cc, uc)] and the error returned; [http_Do c h req] is the
    outcome of [c.HTTPClient.Do(req)] after the requests [h] handed to the
    HTTP client so far: the field [HTTPClient], which [Client] leaves out,
    is read through [c], and a nil one panics. *)
Class ApiPlatform := {
  JsonBody : Type;
  Account : Type;
  InstitutionDetails : Type;
  TransactionList : Type;
  json_Marshal : option JsonBody -> error + string;
  http_NewRequest : string -> string -> string -> error + ApiRequest;
  signer_Sign : Signer -> ApiRequest -> option ClientConfig -> option UserConfig ->
                ApiRequest * option error;
  http_Do : Client -> list ApiRequest -> ApiRequest -> Outcome (error + Response);
  json_Decode_accountList : string -> error + list Account;
  json_Decode_InstitutionDetails : string -> error + InstitutionDetails;
  json_Decode_TransactionList : string -> error + TransactionList;
  time_Format : Time -> string -> string;
  Values_Encode : Values -> string
}.

(** The world of the accessors: the world of the package and the log of
    the requests handed to the HTTP client, oldest first. *)
Record ApiWorld := { base : World; sent : list ApiRequest }.

Definition MA (A : Type) : Type := ApiWorld -> Outcome A * ApiWorld.

#[global] Instance MA_ret : MRet MA := fun A a aw => (Val a, aw).

#[global] Instance MA_bind : MBind MA := fun A B f m aw =>
  match m aw with
  | (Val a, aw') => f a aw'
  | (Panic msg, aw') => (Panic msg, aw')
  end.

(** A transformer of the world of the package, in the world of the
    accessors. *)
Definition lift {A : Type} (m : M A) : MA A :=
  fun aw =>
    let (r, w') := m (base aw) in
    (r, {| base := w'; sent := sent aw |}).

Definition panicA {A : Type} (msg : string) : MA A := fun aw => (Panic msg, aw).

Section Accessors.
Context `{Platform} `{ApiPlatform}.

(** [c.HTTPClient.Do(req)]: the request is logged, whatever the outcome. *)
Definition HTTPClient_Do (c : Client) (req : ApiRequest) : MA (error + Response) :=
  fun aw => (http_Do c (sent aw) req,
             {| base := base aw; sent := sent aw ++ [req] |}).

(** [func (c *Client) request(method, endpoint string, body interface{})],
    which returns a request pointer and an error. *)
Definition Client_request (c : Client) (method endpoint : string)
    (body : option JsonBody) : error + ApiRequest :=
  match json_Marshal body with
  | inl err => inl err
  | inr bodyJSON =>
      match http_NewRequest method (BaseURL +:+ endpoint) bodyJSON with
      | inl err => inl err
      | inr req =>
          let req := req_Header_Add req "Accept" "application/json" in
          let req := req_Header_Add req "Content-Type" "application/json" in
          inr req
      end
  end.

(** [func (c *Client) sign(req *http.Request) error].  The result holds
    the client and the request when the call is over.  A nil [c.signer]
    panics on the method call. *)
Definition Client_sign (c : Client) (req : ApiRequest)
  : MA (Client * ApiRequest * option error) :=
  '(c, err) ← lift (Init c);
  match err with
  | Some err => mret (c, req, Some err)
  | None =>
      match signer c with
      | None => panicA "runtime error: invalid memory address or nil pointer dereference"
      | Some s =>
          let (req, err) := signer_Sign s req (clientConfig c) (userConfig c) in
          mret (c, req, err)
      end
  end.

(** [func (c *Client) do(req *http.Request)], which returns a response
    pointer and an error. *)
Definition Client_do (c : Client) (req : ApiRequest)
  : MA (Client * (error + Response)) :=
  '(c, req, err) ← Client_sign c req;
  match err with
  | Some err => mret (c, inl err)
  | None =>
      r ← HTTPClient_Do c req;
      mret (c, r)
  end.

(** [func (c *Client) url(path string) string] *)
Definition Client_url (c : Client) (path : string) : string := BaseURL +:+ path.

(** [func (c *Client) GetCustomerAccounts() ([]Account, error)] *)
Definition GetCustomerAccounts (c : Client) : MA (Client * (error + list Account)) :=
  match Client_request c "GET" "/accounts" None with
  | inl err => mret (c, inl err)
  | inr req =>
      '(c, r) ← Client_do c req;
      match r with
      | inl err => mret (c, inl err)
      | inr resp =>
          if decide (StatusCode resp ≠ http_StatusOK) then
            mret (c, inl ("CAD API returned status code " +:+ fmt_d (StatusCode resp)))
          else
            match json_Decode_accountList (Body resp) with
            | inl err => mret (c, inl err)
            | inr accounts => mret (c, inr accounts)
            end
      end
  end.

(** [func (c *Client) GetLoginAccounts(loginID int64) ([]Account, error)] *)
Definition GetLoginAccounts (c : Client) (loginID : Z)
  : MA (Client * (error + list Account)) :=
  match Client_request c "GET" ("/logins/" +:+ fmt_d loginID +:+ "/accounts") None with
  | inl err => mret (c, inl err)
  | inr req =>
      '(c, r) ← Client_do c req;
      match r with
      | inl err => mret (c, inl err)
      | inr resp =>
          if decide (StatusCode resp ≠ http_StatusOK) then
            mret (c, inl ("CAD API returned status code " +:+ fmt_d (StatusCode resp)))
          else
            match json_Decode_accountList (Body resp) with
            | inl err => mret (c, inl err)
            | inr accounts => mret (c, inr accounts)
            end
      end
  end.

(** [func (c *Client) InstitutionDetails(institutionID int64)], which
    returns a pointer to the details and an error. *)
Definition Client_InstitutionDetails (c : Client) (institutionID : Z)
  : MA (Client * (error + InstitutionDetails)) :=
  match Client_request c "GET" ("/institutions/" +:+ fmt_d institutionID) None with
  | inl err => mret (c, inl err)
  | inr req =>
      '(c, r) ← Client_do c req;
      match r with
      | inl err => mret (c, inl err)
      | inr resp =>
          match json_Decode_InstitutionDetails (Body resp) with
          | inl err => mret (c, inl err)
          | inr payload => mret (c, inr payload)
          end
      end
  end.

(** [func (c *Client) AccountTransactions(accountID int64, startDate
    time.Time, endDate *time.Time) (TransactionList, error)] *)
Definition AccountTransactions (c : Client) (accountID : Z) (startDate : Time)
    (endDate : option Time) : MA (Client * (error + TransactionList)) :=
  match Client_request c "GET"
          ("/accounts/" +:+ fmt_d accountID +:+ "/transactions") None with
  | inl err => mret (c, inl err)
  | inr req =>
      let dateFormat := "2006-01-02" in
      let query := Values_Set ∅ "txnStartDate" (time_Format startDate dateFormat) in
      let query :=
        match endDate with
        | Some endDate => Values_Set query "txnEndDate" (time_Format endDate dateFormat)
        | None => query
        end in
      let req := set_RawQuery req (Values_Encode query) in
      '(c, r) ← Client_do c req;
      match r with
      | inl err => mret (c, inl err)
      | inr resp =>
          if decide (StatusCode resp ≠ http_StatusOK) then
            mret (c, inl ("CAD API returned status code " +:+ fmt_d (StatusCode resp)))
          else
            match json_Decode_TransactionList (Body resp) with
            | inl err => mret (c, inl err)
            | inr payload => mret (c, inr payload)
            end
      end
  end.

End Accessors.

(** ** Further test doubles *)

Module StubExt.

(** A client as a caller builds it, before [Init]. *)
Definition new_client : Client :=
  {| CustomerID := "alice";
     ConsumerKey := "consumer-key";
     ConsumerSecret := "consumer-secret";
     SAMLProviderID := "provider.1";
     PrivateKey := Some Stub.key;
     initialized := false;
     clientConfig := None;
     userConfig := None;
     signer := None |}.

(** The package with its credentials set and no private key. *)
Definition world_no_key : World :=
  SetDefaultCredentials "consumer-key" "consumer-secret" "provider.1" (init_world 0).

(** A random source that is exhausted. *)
Definition no_uuid (n : nat) : error + UUID := inl "unexpected EOF".

Lemma no_uuid_len (n : nat) (u : UUID) : no_uuid n = inr u -> length u = 16%nat.
Proof. intros [=]. Defined.

Definition platform_no_uuid : Platform :=
  {| xml_Marshal_Assertion := Stub.xml_Assertion;
     xml_Marshal_signedInfo := Stub.xml_signedInfo;
     sha1_Sum := Stub.sha1;
     base64_StdEncoding := Stub.base64;
     base64_URLEncoding := Stub.base64url;
     rsa_SignPKCS1v15 := Stub.sign;
     uuid_NewV4 := no_uuid;
     uuid_NewV4_len := no_uuid_len;
     http_PostForm := Stub.endpoint_200;
     url_QueryUnescape := Stub.unescape;
     url_ParseQuery := Stub.parse_query |}.

(** A PEM reader that takes the text after a dash as the block, and a key
    parser that knows one block. *)
Definition pem_block (s : string) : option string :=
  match s with
  | String "-" block => Some block
  | _ => None
  end.

Definition parse_key (block : string) : error + rsa_PrivateKey :=
  if decide (block = "MIIBOgIBAAJBAK") then inr Stub.key
  else inl "asn1: structure error: tags don't match".

Definition pem : PemPlatform :=
  {| pem_Decode := pem_block; x509_ParsePKCS1PrivateKey := parse_key |}.

(** A JSON reader that knows one object and one list of transactions,
    which are numbers here; the [range] loop visits the object in the
    order of [map_to_list]. *)
Definition transaction_object (data : string) : error + gmap string string :=
  if decide (data = "{bankingTransactions:[1,2],notRefreshedReason:none}") then
    inr {[ "bankingTransactions" := "[1,2]"; "notRefreshedReason" := "none" ]}
  else if decide (data = "{loanTransactions:[}") then
    inr {[ "loanTransactions" := "[" ]}
  else if decide (data = "{}") then inr ∅
  else inl "unexpected end of JSON input".

Definition transactions (raw : string) : error + list Z :=
  if decide (raw = "[1,2]") then inr [1; 2]
  else inl "unexpected end of JSON input".

Lemma map_to_list_perm (m : gmap string string) : map_to_list m ≡ₚ map_to_list m.
Proof. reflexivity. Defined.

Definition json : JsonPlatform Z :=
  {| json_Unmarshal_object := transaction_object;
     json_Unmarshal_txns := transactions;
     range_order := map_to_list;
     range_order_perm := map_to_list_perm |}.

(** The REST service: it knows the accounts of the customer and answers
    404 to every other request.  The signer adds the token of the client
    to the request; the decoders know one body each. *)
Definition new_request (method url body : string) : error + ApiRequest :=
  inr {| req_Method := method; req_URL := url; req_RawQuery := "";
         req_Header := ∅; req_Body := body |}.

Definition oauth_sign (s : Signer) (req : ApiRequest) (cc : option ClientConfig)
    (uc : option UserConfig) : ApiRequest * option error :=
  match cc, uc with
  | Some cc, Some uc =>
      (req_Header_Add req "Authorization"
         ("OAuth oauth_consumer_key=" +:+ cc_ConsumerKey cc +:+
          ", oauth_token=" +:+ AccessTokenKey uc), None)
  | _, _ => (req, Some "oauth1a: no credential")
  end.

Definition service (c : Client) (h : list ApiRequest) (req : ApiRequest)
  : Outcome (error + Response) :=
  if decide (req_URL req = BaseURL +:+ "/accounts") then
    Val (inr {| Status := "200 OK"; StatusCode := 200; Header := ∅;
                Body := "{accounts:[checking]}" |})
  else if decide (req_URL req = BaseURL +:+ "/accounts/7/transactions") then
    Val (inr {| Status := "200 OK"; StatusCode := 200; Header := ∅;
                Body := "{bankingTransactions:[1,2]}" |})
  else
    Val (inr {| Status := "404 Not Found"; StatusCode := 404; Header := ∅;
                Body := "{errorInfo:[not found]}" |}).

Definition decode_accounts (body : string) : error + list string :=
  if decide (body = "{accounts:[checking]}") then inr ["checking"]
  else inl "unexpected end of JSON input".

(** As [encoding/json] does, the decoder of the details skips the keys
    it does not know. *)
Definition decode_details (body : string) : error + string :=
  if decide (body = "{institutionName:Bank}") then inr "Bank"
  else if decide (body = "{errorInfo:[not found]}") then inr ""
  else inl "unexpected end of JSON input".

Definition decode_transactions (body : string) : error + list Z :=
  if decide (body = "{bankingTransactions:[1,2]}") then inr [1; 2]
  else inl "unexpected end of JSON input".

Definition api : ApiPlatform :=
  {| JsonBody := string;
     Account := string;
     InstitutionDetails := string;
     TransactionList := list Z;
     json_Marshal := fun body => inr (default "null" body);
     http_NewRequest := new_request;
     signer_Sign := oauth_sign;
     http_Do := service;
     json_Decode_accountList := decode_accounts;
     json_Decode_InstitutionDetails := decode_details;
     json_Decode_TransactionList := decode_transactions;
     time_Format := fun t layout => "1970-01-01";
     Values_Encode := fun v =>
       "txnStartDate=" +:+ Values_Get v "txnStartDate" |}.

(** The signed request for the details of institution 12, as the client
    of [Stub.world_1] sends it, and the answer of the service to it. *)
Definition details_request : ApiRequest :=
  (oauth_sign HmacSha1Signer
     (req_Header_Add
        (req_Header_Add
           {| req_Method := "GET"; req_URL := BaseURL +:+ "/institutions/12";
              req_RawQuery := ""; req_Header := ∅; req_Body := "null" |}
           "Accept" "application/json")
        "Content-Type" "application/json")
     (clientConfig Stub.client) (userConfig Stub.client)).1.

Definition not_found : Response :=
  {| Status := "404 Not Found"; StatusCode := 404; Header := ∅;
     Body := "{errorInfo:[not found]}" |}.

(** The world of the accessors once the client of [Stub.world_1] is
    cached, nothing sent yet; and before any call. *)
Definition api_world_1 : ApiWorld := {| base := Stub.world_1; sent := [] |}.
Definition api_world_0 : ApiWorld := {| base := Stub.world 0; sent := [] |}.

End StubExt.

(** * Properties *)

(** ** Strings *)

Lemma append_cons (c : ascii) (s1 s2 : string) :
  String c s1 +:+ s2 = String c (s1 +:+ s2).
Proof. reflexivity. Qed.


Lemma append_assoc (s1 s2 s3 : string) : (s1 +:+ s2) +:+ s3 = s1 +:+ (s2 +:+ s3).
Proof.
  induction s1 as [|c s1 IH]; [reflexivity|].
  now rewrite !append_cons, IH.
Qed.

Lemma append_nil_r (s : string) : s +:+ "" = s.
Proof.
  induction s as [|c s IH]; [reflexivity|]. now rewrite append_cons, IH.
Qed.

Lemma length_append (s1 s2 : string) :
  String.length (s1 +:+ s2) = (String.length s1 + String.length s2)%nat.
Proof.
  induction s1 as [|c s1 IH]; [reflexivity|].
  rewrite append_cons. simpl. now rewrite IH.
Qed.


Lemma append_neq_r (p s : string) : p <> "" -> p +:+ s <> s.
Proof.
  intros Hp Heq. apply (f_equal String.length) in Heq.
  rewrite length_append in Heq. destruct p; [congruence | simpl in Heq; lia].
Qed.

(** ** [samlRequestID]: the shape of a reference id *)













(** ** The monad *)

Ltac unfold_M :=
  unfold mbind, M_bind, mret, M_ret, get_world, panic, time_Now,
    time_AfterFunc_delete, clients_store in *.

Section Saml.
Context `{Platform}.

Lemma samlRequestID_eq (w : World) :
  samlRequestID w =
  (match uuid_NewV4 (draws w) with
   | inl err => Panic err
   | inr u => Val (refID_of_uuid u)
   end, set_draws w (S (draws w))).
Proof.
  unfold samlRequestID, uuid_NewV4_draw. unfold_M.
  destruct (uuid_NewV4 (draws w)); reflexivity.
Qed.

Lemma NewAssertion_eq (issuer customerID : string) (lifetime : Duration) (w : World) :
  NewAssertion issuer customerID lifetime w =
  (match uuid_NewV4 (draws w) with
   | inl err => Panic err
   | inr u => Val {|
       RefID := refID_of_uuid u;
       IssueInstant := now w;
       Version := "2.0";
       Issuer := issuer;
       Signature := None;
       Subject := {|
         NameID := {| Format := nameIDFormatUnspecified; Value := customerID |};
         SubjectConfirmation := {| Method := bearerToken |} |};
       Conditions := {|
         NotBefore := now w;
         NotOnOrAfter := now w + lifetime;
         AudienceRestriction := issuer |};
       AuthnStatement := {|
         AuthnInstance := now w;
         SessionIndex := refID_of_uuid u;
         Context := {| ClassRef := classUnspecified |} |} |}
   end, set_draws w (S (draws w))).
Proof.
  unfold NewAssertion. unfold_M. rewrite samlRequestID_eq.
  destruct (uuid_NewV4 (draws w)); reflexivity.
Qed.


(** The one way [Sign] succeeds. *)
Lemma Sign_success (a a' : Assertion) (key : option rsa_PrivateKey) :
  Sign a key = (a', Val None) ->
  exists k assertionStr signedInfoXML sig,
    key = Some k /\
    xml_Marshal_Assertion a = inr assertionStr /\
    xml_Marshal_signedInfo (signedInfo_of a assertionStr) = inr signedInfoXML /\
    rsa_SignPKCS1v15 k crypto_SHA1 (sha1_Sum signedInfoXML) = inr sig /\
    a' = set_Signature a (Some {|
           SignedInfo := signedInfo_of a assertionStr;
           SignatureValue := base64_StdEncoding sig |}).
Proof.
  unfold Sign, signatureValue.
  destruct (xml_Marshal_Assertion a) as [e|assertionStr]; [congruence|].
  fold (signedInfo_of a assertionStr).
  destruct (xml_Marshal_signedInfo _) as [e|signedInfoXML] eqn:Hsi; [congruence|].
  destruct key as [k|]; [|congruence].
  destruct (rsa_SignPKCS1v15 k _ _) as [e|sig] eqn:Hsig; [congruence|].
  intros [= <-]. exists k, assertionStr, signedInfoXML, sig. auto.
Qed.

(** Whenever [Sign] does not succeed, the assertion is as it was. *)
Lemma Sign_failure (a a' : Assertion) (key : option rsa_PrivateKey)
    (r : Outcome (option error)) :
  Sign a key = (a', r) -> r <> Val None -> a' = a.
Proof.
  unfold Sign, signatureValue.
  destruct (xml_Marshal_Assertion a) as [e|assertionStr]; [congruence|].
  destruct (xml_Marshal_signedInfo _) as [e|signedInfoXML]; [congruence|].
  destruct key as [k|]; [|congruence].
  destruct (rsa_SignPKCS1v15 k _ _) as [e|sig]; congruence.
Qed.

End Saml.

Section SamlClaims.
Context `{Platform}.


(** C5.  Whenever the random source delivers a UUID, [NewAssertion]
    returns, for every issuer, subject identifier and lifetime, an
    assertion issued now, valid from its issue instant for the lifetime,
    whose session index is its reference id, whose name id is the subject
    identifier in the unspecified format, with the unspecified
    authentication context class, the bearer confirmation method and no
    signature. *)
Theorem NewAssertion_fields (issuer customerID : string) (lifetime : Duration)
    (w : World) (u : UUID) :
  uuid_NewV4 (draws w) = inr u ->
  exists a,
    NewAssertion issuer customerID lifetime w = (Val a, set_draws w (S (draws w))) /\
    IssueInstant a = now w /\
    NotBefore (Conditions a) = IssueInstant a /\
    NotOnOrAfter (Conditions a) = IssueInstant a + lifetime /\
    RefID a = refID_of_uuid u /\
    SessionIndex (AuthnStatement a) = RefID a /\
    Value (NameID (Subject a)) = customerID /\
    Format (NameID (Subject a)) = "urn:oasis:names:tc:SAML:1.1:nameid-format:unspecified" /\
    ClassRef (Context (AuthnStatement a)) = "urn:oasis:names:tc:SAML:2.0:ac:classes:unspecified" /\
    Method (SubjectConfirmation (Subject a)) = "urn:oasis:names:tc:SAML:2.0:cm:bearer" /\
    Issuer a = issuer /\
    Signature a = None.
Proof.
  intros Hu. rewrite NewAssertion_eq, Hu. eexists. split; [reflexivity|].
  cbn. repeat split; reflexivity.
Qed.

(** C6.  [Sign] is atomic on failure.  If serializing the assertion fails,
    if serializing the SignedInfo fails or if the RSA signature fails,
    [Sign] returns that error and the assertion is as it was.  More
    generally the assertion is as it was unless [Sign] returns [nil], and
    it differs from what it was only when every step has succeeded; then
    it differs by its signature alone. *)
Theorem Sign_atomic_on_failure (a : Assertion) (key : option rsa_PrivateKey) :
  (forall e, xml_Marshal_Assertion a = inl e -> Sign a key = (a, Val (Some e))) /\
  (forall x e,
     xml_Marshal_Assertion a = inr x ->
     xml_Marshal_signedInfo (signedInfo_of a x) = inl e ->
     Sign a key = (a, Val (Some e))) /\
  (forall x y k e,
     xml_Marshal_Assertion a = inr x ->
     xml_Marshal_signedInfo (signedInfo_of a x) = inr y ->
     key = Some k ->
     rsa_SignPKCS1v15 k crypto_SHA1 (sha1_Sum y) = inl e ->
     Sign a key = (a, Val (Some e))) /\
  (forall a' r, Sign a key = (a', r) -> r <> Val None -> a' = a) /\
  (forall a' r, Sign a key = (a', r) -> a' <> a ->
     r = Val None /\
     exists k x y sig,
       key = Some k /\
       xml_Marshal_Assertion a = inr x /\
       xml_Marshal_signedInfo (signedInfo_of a x) = inr y /\
       rsa_SignPKCS1v15 k crypto_SHA1 (sha1_Sum y) = inr sig /\
       a' = set_Signature a (Some {|
              SignedInfo := signedInfo_of a x;
              SignatureValue := base64_StdEncoding sig |})).
Proof.
  split; [|split; [|split; [|split]]].
  - intros e He. unfold Sign. now rewrite He.
  - intros x e Hx Hy. unfold Sign, signatureValue. rewrite Hx.
    fold (signedInfo_of a x). now rewrite Hy.
  - intros x y k e Hx Hy -> Hk. unfold Sign, signatureValue. rewrite Hx.
    fold (signedInfo_of a x). now rewrite Hy, Hk.
  - intros a' r. apply Sign_failure.
  - intros a' r Hs Hne.
    assert (r = Val None) as ->.
    { destruct r as [[e|]|msg]; [| reflexivity |];
        exfalso; apply Hne; eapply Sign_failure; eauto; discriminate. }
    split; [reflexivity|].
    destruct (Sign_success _ _ _ Hs) as (k & x & y & sig & Hall).
    exists k, x, y, sig. exact Hall.
Qed.


End SamlClaims.



Lemma NewAssertion_fields_witness :
  exists a,
    @NewAssertion (Stub.platform Stub.endpoint_200) "provider.1" "alice"
      (time_Minute * 10) (Stub.world 0) = (Val a, set_draws (Stub.world 0) 1) /\
    a = Stub.assertion.
Proof.
  destruct (@NewAssertion_fields (Stub.platform Stub.endpoint_200) "provider.1" "alice"
              (time_Minute * 10) (Stub.world 0) (replicate 16 x00) eq_refl)
    as (a & E & _).
  exists a. split; [exact E|].
  apply (f_equal fst) in E. vm_compute in E. injection E as <-. reflexivity.
Defined.

Lemma Sign_atomic_on_failure_witness :
  @Sign (Stub.platform Stub.endpoint_200) Stub.assertion (Some Stub.short_key) =
  (Stub.assertion, Val (Some "crypto/rsa: message too long for RSA key size")).
Proof.
  pose proof (@Sign_atomic_on_failure (Stub.platform Stub.endpoint_200)
                Stub.assertion (Some Stub.short_key)) as (_ & _ & Hrsa & _).
  eapply Hrsa; reflexivity.
Defined.



(** ** The token exchange *)

Section Exchange.
Context `{Platform}.

Lemma Sign_local_eq (a : Assertion) (key : option rsa_PrivateKey) (w : World) :
  Sign_local a key w =
  (match Sign a key with
   | (a', Val err) => Val (a', err)
   | (_, Panic msg) => Panic msg
   end, w).
Proof. unfold Sign_local. destruct (Sign a key) as [a' [err|msg]]; reflexivity. Qed.

(** Every run of [loadOAuthUserConfig]: either it stops before the POST,
    with an error or a panic and the request log as it was, or it makes
    one POST of the freshly signed assertion and returns according to the
    answer. *)
Lemma loadOAuthUserConfig_run (c : Client) (w : World)
    (r : Outcome (Client * option error)) (w' : World) :
  loadOAuthUserConfig c w = (r, w') ->
  (posts w' = posts w /\ (forall c', r <> Val (c', None)) /\
   (w' = w \/ w' = set_draws w (S (draws w))) /\
   (CustomerID c = "" ->
    r = Val (c, Some "customer id must not be empty") /\ w' = w) /\
   (CustomerID c <> "" ->
    exists e,
      r = Panic e \/
      r = Val (c, Some ("unable to sign assertion: " +:+ e)) \/
      r = Val (c, Some ("unable to marshal assertion: " +:+ e))))
  \/
  (exists u a a' samlString,
     CustomerID c <> "" /\
     uuid_NewV4 (draws w) = inr u /\
     NewAssertion (SAMLProviderID c) (CustomerID c) (time_Minute * 10) w =
       (Val a, set_draws w (S (draws w))) /\
     Sign a (PrivateKey c) = (a', Val None) /\
     xml_Marshal_Assertion a' = inr samlString /\
     let values :=
       Values_Set (Values_Set ∅ "saml_assertion" (base64_URLEncoding samlString))
         "oauth_consumer_key" (ConsumerKey c) in
     w' = set_posts (set_draws w (S (draws w)))
            (posts w ++ [{| req_url := AccessTokenEndpoint; req_form := values |}]) /\
     match http_PostForm (posts w) AccessTokenEndpoint values with
     | inl e => r = Val (c, Some ("token request error: " +:+ e))
     | inr resp =>
         if decide (StatusCode resp ≠ http_StatusOK) then
           r = Val (c, Some ("authentication error: " +:+ Status resp +:+ " " +:+
                 (url_QueryUnescape (Values_Get (Header resp) "Www-Authenticate")).1))
         else
           r = Val (set_userConfig c (Some (NewAuthorizedConfig
                 (Values_Get (url_ParseQuery (Body resp)) "oauth_token")
                 (Values_Get (url_ParseQuery (Body resp)) "oauth_token_secret"))), None)
     end).
Proof.
  unfold loadOAuthUserConfig.
  destruct (decide (CustomerID c = "")) as [Hid|Hid].
  { unfold_M. intros [= <- <-]. left.
    split; [reflexivity|]. split; [congruence|]. split; [auto|].
    split; [auto | contradiction]. }
  assert (forall (r0 : Outcome (Client * option error)) e,
            r0 = Panic e \/
            r0 = Val (c, Some ("unable to sign assertion: " +:+ e)) \/
            r0 = Val (c, Some ("unable to marshal assertion: " +:+ e)) ->
            posts (set_draws w (S (draws w))) = posts w /\
            (forall c', r0 <> Val (c', None)) /\
            (set_draws w (S (draws w)) = w \/
             set_draws w (S (draws w)) = set_draws w (S (draws w))) /\
            (CustomerID c = "" ->
             r0 = Val (c, Some "customer id must not be empty") /\
             set_draws w (S (draws w)) = w) /\
            (CustomerID c <> "" ->
             exists e,
               r0 = Panic e \/
               r0 = Val (c, Some ("unable to sign assertion: " +:+ e)) \/
               r0 = Val (c, Some ("unable to marshal assertion: " +:+ e)))) as Hpre.
  { intros r0 e Hr0. split; [reflexivity|]. split.
    { intros c'. destruct Hr0 as [-> | [-> | ->]]; congruence. }
    split; [auto|]. split; [contradiction | eauto]. }
  unfold mbind at 1, M_bind at 1. rewrite NewAssertion_eq.
  destruct (uuid_NewV4 (draws w)) as [e|u] eqn:Hu.
  { intros [= <- <-]. left. apply (Hpre _ e). auto. }
  set (a := {| RefID := refID_of_uuid u |}).
  unfold mbind at 1, M_bind at 1. rewrite Sign_local_eq.
  destruct (Sign a (PrivateKey c)) as [a' [[e|]|msg]] eqn:Hsign.
  { unfold_M. intros [= <- <-]. left. apply (Hpre _ e). auto. }
  2:{ intros [= <- <-]. left. apply (Hpre _ msg). auto. }
  destruct (xml_Marshal_Assertion a') as [e|samlString] eqn:Hm.
  { unfold_M. intros [= <- <-]. left. apply (Hpre _ e). auto. }
  clear Hpre.
  unfold PostForm. unfold_M. cbn [posts set_draws].
  intros Hrun. right. exists u, a, a', samlString.
  repeat (split; [first [assumption | reflexivity]|]).
  cbv zeta.
  destruct (http_PostForm _ _ _) as [e|resp].
  { injection Hrun as <- <-. split; reflexivity. }
  destruct (decide (StatusCode resp ≠ http_StatusOK));
    injection Hrun as <- <-; split; reflexivity.
Qed.

End Exchange.

(** ** The client cache *)

Lemma fire_timers_pending (t : Time) (tms : list (Time * string))
    (m : gmap string Client) (deadline : Time) (k : string) :
  (deadline, k) ∈ (fire_timers t tms m).1 <-> (deadline, k) ∈ tms /\ t < deadline.
Proof.
  induction tms as [|[dl k'] tms IH]; simpl.
  - rewrite elem_of_nil. tauto.
  - destruct (fire_timers t tms m) as [rest' m'] eqn:Hf. simpl in IH.
    destruct (Z.leb_spec dl t); simpl; rewrite ?elem_of_cons, IH.
    + split; [tauto|]. intros [ [ [= ? ?] | ? ] ? ]; [lia | tauto].
    + split.
      * intros [ [= ? ?] | [? ?] ]; subst; split; auto; lia.
      * intros [ [ E | ? ] ? ]; auto.
Qed.

Lemma fire_timers_keys (t : Time) (tms : list (Time * string))
    (m : gmap string Client) (k : string) :
  k ∈ (fire_timers t tms m).1.*2 -> k ∈ tms.*2.
Proof.
  rewrite !list_elem_of_fmap. intros ([dl k'] & -> & Hin).
  apply fire_timers_pending in Hin as [Hin _]. now exists (dl, k').
Qed.

Lemma fire_timers_NoDup (t : Time) (tms : list (Time * string))
    (m : gmap string Client) :
  NoDup tms.*2 -> NoDup (fire_timers t tms m).1.*2.
Proof.
  induction tms as [|[dl k] tms IH]; simpl; [auto|].
  rewrite NoDup_cons. intros [Hk Hnd]. specialize (IH Hnd).
  pose proof (fire_timers_keys t tms m k) as Hkeys.
  destruct (fire_timers t tms m) as [rest' m'] eqn:Hf. simpl in *.
  destruct (dl <=? t); simpl; [assumption|].
  rewrite NoDup_cons. auto.
Qed.

(** A client stays in the map when none of its timers is due. *)
Lemma fire_timers_keep (t : Time) (tms : list (Time * string))
    (m : gmap string Client) (k : string) :
  (forall deadline, (deadline, k) ∈ tms -> t < deadline) ->
  (fire_timers t tms m).2 !! k = m !! k.
Proof.
  induction tms as [|[dl k'] tms IH]; simpl; [auto|].
  intros Hk. destruct (fire_timers t tms m) as [rest' m'] eqn:Hf. simpl in IH.
  assert (m' !! k = m !! k) as Hm'.
  { apply IH. intros deadline Hin. apply Hk. now right. }
  destruct (Z.leb_spec dl t); simpl; [|assumption].
  rewrite lookup_delete_ne; [assumption|].
  intros ->. specialize (Hk dl (list_elem_of_here _ _)). lia.
Qed.

(** A client is gone from the map once one of its timers is due. *)
Lemma fire_timers_evict (t : Time) (tms : list (Time * string))
    (m : gmap string Client) (deadline : Time) (k : string) :
  (deadline, k) ∈ tms -> deadline <= t ->
  (fire_timers t tms m).2 !! k = None.
Proof.
  induction tms as [|[dl k'] tms IH]; simpl.
  - intros Hin. now apply elem_of_nil in Hin.
  - intros Hin Hdue. destruct (fire_timers t tms m) as [rest' m'] eqn:Hf. simpl in IH.
    apply elem_of_cons in Hin as [ [= E1 E2] | Hin].
    + rewrite <- E1, <- E2. destruct (Z.leb_spec deadline t); [|lia]. simpl. apply lookup_delete_eq.
    + specialize (IH Hin Hdue).
      destruct (dl <=? t); simpl; [|assumption].
      destruct (decide (k' = k)) as [->|Hne];
        [apply lookup_delete_eq | now rewrite lookup_delete_ne].
Qed.

(** Firing timers only removes clients. *)
Lemma fire_timers_None (t : Time) (tms : list (Time * string))
    (m : gmap string Client) (k : string) :
  m !! k = None -> (fire_timers t tms m).2 !! k = None.
Proof.
  intros Hm. induction tms as [|[dl k'] tms IH]; simpl; [assumption|].
  destruct (fire_timers t tms m) as [rest' m'] eqn:Hf. simpl in IH.
  destruct (dl <=? t); simpl; [|assumption].
  destruct (decide (k' = k)) as [->|Hne];
    [apply lookup_delete_eq | now rewrite lookup_delete_ne].
Qed.

Lemma advance_clients (d : Duration) (w : World) :
  clients (advance d w) = (fire_timers (now w + d) (timers w) (clients w)).2.
Proof.
  unfold advance, time_Add. now destruct (fire_timers _ _ _).
Qed.

Lemma advance_timers (d : Duration) (w : World) :
  timers (advance d w) = (fire_timers (now w + d) (timers w) (clients w)).1.
Proof.
  unfold advance, time_Add. now destruct (fire_timers _ _ _).
Qed.

Lemma advance_now (d : Duration) (w : World) : now (advance d w) = now w + d.
Proof.
  unfold advance, time_Add. now destruct (fire_timers _ _ _).
Qed.

Lemma advance_posts (d : Duration) (w : World) : posts (advance d w) = posts w.
Proof.
  unfold advance. now destruct (fire_timers _ _ _).
Qed.

Section Cache.
Context `{Platform}.

Lemma NewClient_hit (customerID : string) (w : World) (c : Client) :
  clients w !! customerID = Some c -> NewClient customerID w = (Val (inr c), w).
Proof. unfold NewClient. unfold_M. now intros ->. Qed.

Lemma NewClient_miss (customerID : string) (w : World) :
  clients w !! customerID = None ->
  NewClient customerID w =
  match loadOAuthUserConfig (fresh_client customerID w) w with
  | (Val (c, None), w0) =>
      (Val (inr (set_initialized c true)),
       set_timers (set_clients w0 (<[customerID := set_initialized c true]> (clients w0)))
         ((now w0 + time_Minute * 30, customerID) :: timers w0))
  | (Val (c, Some err), w0) => (Val (inl err), w0)
  | (Panic msg, w0) => (Panic msg, w0)
  end.
Proof.
  intros Hmiss. unfold NewClient, Init. unfold_M. rewrite Hmiss. cbn [initialized].
  change (set_signer (set_clientConfig _ _) _) with (fresh_client customerID w).
  destruct (loadOAuthUserConfig (fresh_client customerID w) w) as [[[c [err|]]|msg] w0];
    reflexivity.
Qed.

(** What a run of [loadOAuthUserConfig] leaves untouched. *)
Lemma loadOAuthUserConfig_frame (c : Client) (w : World)
    (r : Outcome (Client * option error)) (w' : World) :
  loadOAuthUserConfig c w = (r, w') ->
  now w' = now w /\ clients w' = clients w /\ timers w' = timers w /\
  DefaultConsumerKey w' = DefaultConsumerKey w /\
  DefaultConsumerSecret w' = DefaultConsumerSecret w /\
  DefaultSAMLProviderID w' = DefaultSAMLProviderID w /\
  DefaultPrivateKey w' = DefaultPrivateKey w /\
  (posts w' = posts w \/ exists req, posts w' = posts w ++ [req]).
Proof.
  intros Hrun. apply loadOAuthUserConfig_run in Hrun as
    [(Hposts & _ & [-> | ->] & _) | (u & a & a' & s & _ & _ & _ & _ & _ & Hw)].
  - repeat split; auto.
  - repeat split; auto.
  - cbv zeta in Hw. destruct Hw as [-> _]. repeat split; eauto.
Qed.

Lemma loadOAuthUserConfig_empty (c : Client) (w : World) :
  CustomerID c = "" ->
  loadOAuthUserConfig c w = (Val (c, Some "customer id must not be empty"), w).
Proof.
  intros Hid. unfold loadOAuthUserConfig.
  destruct (decide (CustomerID c = "")); [reflexivity | contradiction].
Qed.

(** Every run of [NewClient]: a cache hit, which changes nothing; a miss
    that fails, which leaves the cache and the timers as they were; or a
    miss that succeeds, which stores the client and starts its timer. *)
Lemma NewClient_run (customerID : string) (w : World)
    (r : Outcome (error + Client)) (w' : World) :
  NewClient customerID w = (r, w') ->
  (exists c, clients w !! customerID = Some c /\ r = Val (inr c) /\ w' = w)
  \/
  (clients w !! customerID = None /\ (forall c, r <> Val (inr c)) /\
   now w' = now w /\ clients w' = clients w /\ timers w' = timers w /\
   (posts w' = posts w \/ exists req, posts w' = posts w ++ [req]) /\
   (customerID = "" -> r = Val (inl "customer id must not be empty") /\ w' = w) /\
   (customerID <> "" -> posts w' = posts w ->
    exists e,
      r = Panic e \/
      r = Val (inl ("unable to sign assertion: " +:+ e)) \/
      r = Val (inl ("unable to marshal assertion: " +:+ e))))
  \/
  (exists c0 w0,
     clients w !! customerID = None /\
     loadOAuthUserConfig (fresh_client customerID w) w = (Val (c0, None), w0) /\
     r = Val (inr (set_initialized c0 true)) /\
     w' = set_timers (set_clients w0 (<[customerID := set_initialized c0 true]> (clients w)))
            ((now w + time_Minute * 30, customerID) :: timers w)).
Proof.
  destruct (clients w !! customerID) as [c|] eqn:Hlook.
  { rewrite (NewClient_hit _ _ _ Hlook). intros [= <- <-]. left. eauto. }
  rewrite (NewClient_miss _ _ Hlook).
  destruct (loadOAuthUserConfig (fresh_client customerID w) w)
    as [[[c [err|]]|msg] w0] eqn:Hload; intros [= <- <-].
  - right. left.
    destruct (loadOAuthUserConfig_frame _ _ _ _ Hload) as (Hn & Hc & Ht & _ & _ & _ & _ & Hp).
    split; [reflexivity|]. split; [congruence|].
    repeat (split; [assumption|]). split.
    + intros ->. rewrite loadOAuthUserConfig_empty in Hload by reflexivity.
      injection Hload as <- <- <-. auto.
    + intros Hne Hsame.
      apply loadOAuthUserConfig_run in Hload as
        [(_ & _ & _ & _ & Hpre) | (u & a & a' & s & _ & _ & _ & _ & _ & Hpost)].
      * destruct (Hpre Hne) as (e & [He | [He | He]]); exists e;
          [discriminate He | injection He as _ -> | injection He as _ ->]; auto.
      * cbv zeta in Hpost. destruct Hpost as [-> _]. cbn [posts set_posts] in Hsame.
        apply (f_equal length) in Hsame. rewrite length_app in Hsame.
        simpl in Hsame. lia.
  - right. right. exists c, w0.
    destruct (loadOAuthUserConfig_frame _ _ _ _ Hload) as (Hn & Hc & Ht & _).
    rewrite Hn, Hc, Ht. auto.
  - right. left.
    destruct (loadOAuthUserConfig_frame _ _ _ _ Hload) as (Hn & Hc & Ht & _ & _ & _ & _ & Hp).
    split; [reflexivity|]. split; [congruence|].
    repeat (split; [assumption|]). split.
    + intros ->. rewrite loadOAuthUserConfig_empty in Hload by reflexivity.
      discriminate Hload.
    + intros _ _. exists msg. auto.
Qed.

End Cache.

Section Reachable.
Context `{Platform}.

Lemma timer_unique (tms : list (Time * string)) (d1 d2 : Time) (k : string) :
  NoDup tms.*2 -> (d1, k) ∈ tms -> (d2, k) ∈ tms -> d1 = d2.
Proof.
  induction tms as [|[dl0 k0] tms IH]; simpl; intros Hnd Hin1 Hin2.
  - now apply elem_of_nil in Hin1.
  - apply NoDup_cons in Hnd as [Hk0 Hnd].
    apply elem_of_cons in Hin1 as [ [= ? ?] | Hin1];
      apply elem_of_cons in Hin2 as [ [= ? ?] | Hin2]; subst; auto.
    + exfalso. apply Hk0. apply list_elem_of_fmap. now exists (d2, k0).
    + exfalso. apply Hk0. apply list_elem_of_fmap. now exists (d1, k0).
Qed.

Lemma init_world_inv (t0 : Time) : cache_inv (init_world t0).
Proof.
  split; [reflexivity|]. split; [constructor|].
  intros dl k Hin. now apply elem_of_nil in Hin.
Qed.

Lemma NewClient_inv (customerID : string) (w : World) :
  cache_inv w -> cache_inv (NewClient customerID w).2.
Proof.
  intros (Hempty & Hnd & Htm).
  destruct (NewClient customerID w) as [r w'] eqn:Hrun. simpl.
  apply NewClient_run in Hrun as
    [(c & _ & _ & ->) | [(_ & _ & _ & Hc & Ht & _) | (c0 & w0 & Hmiss & Hload & _ & ->)]].
  - now repeat split.
  - unfold cache_inv. rewrite Hc, Ht. now repeat split.
  - assert (customerID <> "") as Hne.
    { intros ->. rewrite loadOAuthUserConfig_empty in Hload by reflexivity.
      discriminate Hload. }
    unfold cache_inv. cbn [clients timers set_timers set_clients].
    split; [|split].
    + now rewrite lookup_insert_ne.
    + cbn [fmap list_fmap snd]. apply NoDup_cons. split; [|assumption].
      intros Hin. apply list_elem_of_fmap in Hin as ([dl k] & Hk & Hin).
      simpl in Hk. subst k. apply Htm in Hin as [c Hc]. congruence.
    + intros dl k Hin. apply elem_of_cons in Hin as [ [= ? ?] | Hin].
      * subst. rewrite lookup_insert_eq. eauto.
      * destruct (decide (customerID = k)) as [->|Hk].
        -- rewrite lookup_insert_eq. eauto.
        -- rewrite lookup_insert_ne by assumption. eauto.
Qed.

Lemma advance_inv (d : Duration) (w : World) : cache_inv w -> cache_inv (advance d w).
Proof.
  intros (Hempty & Hnd & Htm). unfold cache_inv.
  rewrite advance_clients, advance_timers. split; [|split].
  - now apply fire_timers_None.
  - now apply fire_timers_NoDup.
  - intros deadline k Hin. apply fire_timers_pending in Hin as [Hin Hlt].
    rewrite fire_timers_keep; [eauto|].
    intros dl' Hin'. now rewrite (timer_unique _ _ _ _ Hnd Hin' Hin).
Qed.

Lemma step_inv (w w' : World) : step w w' -> cache_inv w -> cache_inv w'.
Proof.
  intros [k w0 | d w0 Hd | ck cs sp w0 | key w0].
  - apply NewClient_inv.
  - apply advance_inv.
  - auto.
  - auto.
Qed.

Lemma steps_inv (w w' : World) : rtc step w w' -> cache_inv w -> cache_inv w'.
Proof. induction 1; eauto using step_inv. Qed.

Lemma reachable_inv (w : World) : reachable w -> cache_inv w.
Proof. intros [t0 Hsteps]. eapply steps_inv; eauto using init_world_inv. Qed.

Lemma step_now (w w' : World) : step w w' -> now w <= now w'.
Proof.
  intros [k w0 | d w0 Hd | ck cs sp w0 | key w0]; simpl; try lia.
  - destruct (NewClient k w0) as [r w1] eqn:Hrun. simpl.
    apply NewClient_run in Hrun as
      [(c & _ & _ & ->) | [(_ & _ & Hn & _) | (c0 & w1' & _ & Hload & _ & ->)]].
    + lia.
    + lia.
    + apply loadOAuthUserConfig_frame in Hload as [Hn _]. simpl. lia.
  - rewrite advance_now. lia.
Qed.

Lemma steps_now (w w' : World) : rtc step w w' -> now w <= now w'.
Proof.
  induction 1 as [|w1 w2 w3 Hs _ IH]; [lia|]. apply step_now in Hs. lia.
Qed.

(** A cached client stays cached, with its timer pending, for as long
    as the clock has not reached the deadline of the timer. *)
Lemma cached_step (w w' : World) (k : string) (c : Client) (deadline : Time) :
  step w w' -> now w' < deadline ->
  cache_inv w -> clients w !! k = Some c -> (deadline, k) ∈ timers w ->
  clients w' !! k = Some c /\ (deadline, k) ∈ timers w'.
Proof.
  intros [k' w0 | d w0 Hd | ck cs sp w0 | key w0] Hnow (Hempty & Hnd & Htm) Hc Ht;
    [| | auto | auto].
  - destruct (NewClient k' w0) as [r w1] eqn:Hrun. simpl in *.
    apply NewClient_run in Hrun as
      [(c' & _ & _ & ->) | [(_ & _ & _ & Hcl & Htl & _) | (c0 & w1' & Hmiss & _ & _ & ->)]].
    + auto.
    + now rewrite Hcl, Htl.
    + cbn [clients timers set_timers set_clients]. split.
      * rewrite lookup_insert_ne; [assumption | congruence].
      * now right.
  - rewrite advance_now in Hnow. rewrite advance_clients, advance_timers. split.
    + rewrite fire_timers_keep; [assumption|].
      intros dl' Hin'. rewrite (timer_unique _ _ _ _ Hnd Hin' Ht). lia.
    + apply fire_timers_pending. split; [assumption | lia].
Qed.

Lemma cached_steps (w w' : World) (k : string) (c : Client) (deadline : Time) :
  rtc step w w' -> now w' < deadline ->
  cache_inv w -> clients w !! k = Some c -> (deadline, k) ∈ timers w ->
  clients w' !! k = Some c /\ (deadline, k) ∈ timers w' /\ cache_inv w'.
Proof.
  induction 1 as [w|w1 w2 w3 Hs Hrest IH]; intros Hnow Hinv Hc Ht; [auto|].
  pose proof (steps_now _ _ Hrest) as Hmono.
  destruct (cached_step _ _ k c deadline Hs) as [Hc2 Ht2]; auto; [lia|].
  apply IH; eauto using step_inv.
Qed.

End Reachable.

Section ClientClaims.
Context `{Platform}.

(** A cache miss that succeeds, in full. *)
Lemma NewClient_success (customerID : string) (w w' : World) (c : Client) :
  clients w !! customerID = None ->
  NewClient customerID w = (Val (inr c), w') ->
  exists u a a' samlString resp,
    customerID <> "" /\
    uuid_NewV4 (draws w) = inr u /\
    NewAssertion (DefaultSAMLProviderID w) customerID (time_Minute * 10) w =
      (Val a, set_draws w (S (draws w))) /\
    Sign a (DefaultPrivateKey w) = (a', Val None) /\
    xml_Marshal_Assertion a' = inr samlString /\
    let values :=
      Values_Set (Values_Set ∅ "saml_assertion" (base64_URLEncoding samlString))
        "oauth_consumer_key" (DefaultConsumerKey w) in
    http_PostForm (posts w) AccessTokenEndpoint values = inr resp /\
    StatusCode resp = http_StatusOK /\
    c = set_initialized (set_userConfig (fresh_client customerID w)
          (Some (NewAuthorizedConfig
             (Values_Get (url_ParseQuery (Body resp)) "oauth_token")
             (Values_Get (url_ParseQuery (Body resp)) "oauth_token_secret")))) true /\
    now w' = now w /\
    clients w' = <[customerID := c]> (clients w) /\
    timers w' = (now w + time_Minute * 30, customerID) :: timers w /\
    posts w' = posts w ++ [{| req_url := AccessTokenEndpoint; req_form := values |}].
Proof.
  intros Hmiss Hrun.
  apply NewClient_run in Hrun as
    [(c' & Hhit & _) | [(_ & Hfail & _) | (c0 & w0 & _ & Hload & Hr & ->)]].
  - congruence.
  - now destruct (Hfail c).
  - injection Hr as ->.
    apply loadOAuthUserConfig_run in Hload as
      [(_ & Hfail & _) | (u & a & a' & s & Hne & Hu & Ha & Hs & Hm & Hpost)].
    { now destruct (Hfail c0). }
    cbv zeta in Hpost. destruct Hpost as [-> Hanswer].
    cbn [CustomerID SAMLProviderID PrivateKey ConsumerKey fresh_client] in *.
    destruct (http_PostForm _ _ _) as [e|resp] eqn:Hresp; [discriminate Hanswer|].
    destruct (decide (StatusCode resp ≠ http_StatusOK)) as [Hst|Hst];
      [discriminate Hanswer|].
    injection Hanswer as ->.
    exists u, a, a', s, resp. cbv zeta.
    repeat (split; [first [assumption | reflexivity]|]).
    split; [|repeat split].
    destruct (decide (StatusCode resp = http_StatusOK)); [assumption | contradiction].
Qed.

(** C8.  In every reachable world, [NewClient] with the empty customer id
    returns the validation error and leaves the world as it was: no UUID is
    drawn, so no assertion is built, the request log is unchanged, so
    nothing is sent, and the cache has no entry for the empty id.  The
    earlier revision of the client panics instead, the world unchanged
    too. *)
Theorem NewClient_empty_customerID (w : World) :
  reachable w ->
  NewClient "" w = (Val (inl "customer id must not be empty"), w) /\
  clients w !! "" = None /\
  (forall c, CustomerID c = "" ->
             loadOAuthUserConfig c w = (Val (c, Some "customer id must not be empty"), w)) /\
  Legacy.NewClient "" w = (Panic "customer id must not be empty", w).
Proof.
  intros Hreach. destruct (reachable_inv _ Hreach) as (Hempty & _).
  split; [|split; [assumption|split]].
  - rewrite (NewClient_miss _ _ Hempty).
    now rewrite loadOAuthUserConfig_empty by reflexivity.
  - intros c. apply loadOAuthUserConfig_empty.
  - reflexivity.
Qed.

(** C4, as the code has it.  An exchange makes one POST at most, whatever
    happens.  When the POST it makes fails at the transport level with the
    error [e], the exchange returns a new error, whose text is the text of
    [e] behind the prefix [token request error: ], it leaves the client as
    it was, and [NewClient] hands that new error on to its caller and
    caches nothing. *)
Theorem transport_error_once_and_wrapped (c : Client) (w w' : World)
    (r : Outcome (Client * option error)) :
  loadOAuthUserConfig c w = (r, w') ->
  (posts w' = posts w \/ exists req, posts w' = posts w ++ [req]) /\
  (forall req e,
     posts w' = posts w ++ [req] ->
     http_PostForm (posts w) (req_url req) (req_form req) = inl e ->
     r = Val (c, Some ("token request error: " +:+ e)) /\
     "token request error: " +:+ e <> e /\
     (c = fresh_client (CustomerID c) w -> clients w !! CustomerID c = None ->
      NewClient (CustomerID c) w = (Val (inl ("token request error: " +:+ e)), w') /\
      clients w' = clients w)).
Proof.
  intros Hrun. split.
  { now apply loadOAuthUserConfig_frame in Hrun. }
  intros req e Hposts Hfail.
  assert (r = Val (c, Some ("token request error: " +:+ e))) as ->.
  { apply loadOAuthUserConfig_run in Hrun as
      [(Hsame & _) | (u & a & a' & s & _ & _ & _ & _ & _ & Hpost)].
    { rewrite Hsame in Hposts. apply (f_equal length) in Hposts.
      rewrite length_app in Hposts. simpl in Hposts. lia. }
    cbv zeta in Hpost. destruct Hpost as [-> Hanswer].
    cbn [posts set_posts] in Hposts. apply app_inv_head in Hposts.
    injection Hposts as <-. cbn [req_url req_form] in Hfail.
    now rewrite Hfail in Hanswer. }
  split; [reflexivity|]. split; [now apply append_neq_r|].
  intros Hc Hmiss. rewrite (NewClient_miss _ _ Hmiss), <- Hc, Hrun.
  split; [reflexivity|]. now apply loadOAuthUserConfig_frame in Hrun.
Qed.

(** C7.  When the token endpoint answers the POST of an exchange with a
    status other than 200, the exchange returns the error whose text is
    "authentication error: ", the status line, a space, and the text that
    [url.QueryUnescape] makes of the Www-Authenticate header; the text
    contains both.  The client is left as it was, without credential, and
    [NewClient] then returns that error and caches nothing. *)
Theorem authentication_error_message (c : Client) (w w' : World)
    (r : Outcome (Client * option error)) (req : Request) (resp : Response) :
  loadOAuthUserConfig c w = (r, w') ->
  posts w' = posts w ++ [req] ->
  http_PostForm (posts w) (req_url req) (req_form req) = inr resp ->
  StatusCode resp <> 200 ->
  exists msg decoded,
    decoded = (url_QueryUnescape (Values_Get (Header resp) "Www-Authenticate")).1 /\
    msg = "authentication error: " +:+ Status resp +:+ " " +:+ decoded /\
    r = Val (c, Some msg) /\
    contains msg (Status resp) /\
    contains msg decoded /\
    (c = fresh_client (CustomerID c) w -> clients w !! CustomerID c = None ->
     NewClient (CustomerID c) w = (Val (inl msg), w') /\
     clients w' = clients w).
Proof.
  intros Hrun Hposts Hresp Hst.
  pose proof Hrun as Hrun0.
  apply loadOAuthUserConfig_run in Hrun as
    [(Hsame & _) | (u & a & a' & s & _ & _ & _ & _ & _ & Hpost)].
  { rewrite Hsame in Hposts. apply (f_equal length) in Hposts.
    rewrite length_app in Hposts. simpl in Hposts. lia. }
  cbv zeta in Hpost. destruct Hpost as [Hw' Hanswer].
  rewrite Hw' in Hposts. cbn [posts set_posts] in Hposts.
  apply app_inv_head in Hposts. injection Hposts as <-.
  cbn [req_url req_form] in Hresp. rewrite Hresp in Hanswer.
  destruct (decide (StatusCode resp ≠ http_StatusOK)) as [_|Hok];
    [|now destruct Hok].
  eexists _, _. split; [reflexivity|]. split; [reflexivity|].
  split; [exact Hanswer|]. split; [|split].
  - exists "authentication error: ", (" " +:+ (url_QueryUnescape
      (Values_Get (Header resp) "Www-Authenticate")).1). reflexivity.
  - exists ("authentication error: " +:+ Status resp +:+ " "), "".
    now rewrite append_nil_r, !append_assoc.
  - intros Hc Hmiss. rewrite (NewClient_miss _ _ Hmiss), <- Hc, Hrun0, Hanswer.
    split; [reflexivity|]. now rewrite Hw'.
Qed.

(** C2.  Let a call of [NewClient] for a customer id that is not cached
    succeed, in a reachable world.  It makes one POST.  From then on,
    whatever else happens in between, a call for the same id made before
    the clock is 30 minutes past the first call returns the same client
    and changes nothing: no UUID is drawn, nothing is signed, nothing is
    posted.  When the clock gets to 30 minutes past the first call the
    entry is gone from the map, and a call for the id then makes exactly
    one POST, unless it stops before the exchange because the UUID, the
    signature or the serialization fails. *)
Theorem NewClient_cache_ttl (customerID : string) (w0 w1 : World) (c : Client) :
  reachable w0 ->
  clients w0 !! customerID = None ->
  NewClient customerID w0 = (Val (inr c), w1) ->
  (exists req, posts w1 = posts w0 ++ [req]) /\
  (forall w2,
     rtc step w1 w2 -> now w2 < now w0 + time_Minute * 30 ->
     NewClient customerID w2 = (Val (inr c), w2)) /\
  (forall w2 d,
     rtc step w1 w2 -> now w2 < now w0 + time_Minute * 30 ->
     now w0 + time_Minute * 30 <= now w2 + d ->
     clients (advance d w2) !! customerID = None /\
     forall r3 w3,
       NewClient customerID (advance d w2) = (r3, w3) ->
       (exists req, posts w3 = posts w2 ++ [req]) \/
       (posts w3 = posts w2 /\
        exists e,
          r3 = Panic e \/
          r3 = Val (inl ("unable to sign assertion: " +:+ e)) \/
          r3 = Val (inl ("unable to marshal assertion: " +:+ e)))).
Proof.
  intros Hreach Hmiss Hrun.
  pose proof (reachable_inv _ Hreach) as Hinv0.
  assert (cache_inv w1) as Hinv1.
  { pose proof (NewClient_inv customerID w0 Hinv0) as Hi. now rewrite Hrun in Hi. }
  destruct (NewClient_success _ _ _ _ Hmiss Hrun) as
    (u & a & a' & s & resp & Hne & _ & _ & _ & _ & Hrest).
  cbv zeta in Hrest. destruct Hrest as (_ & _ & _ & Hnow & Hcl & Htm & Hposts).
  assert (clients w1 !! customerID = Some c) as Hc1.
  { rewrite Hcl. apply lookup_insert_eq. }
  assert ((now w0 + time_Minute * 30, customerID) ∈ timers w1) as Ht1.
  { rewrite Htm. now left. }
  split; [eauto|]. split.
  - intros w2 Hsteps Hlt.
    destruct (cached_steps _ _ _ _ _ Hsteps Hlt Hinv1 Hc1 Ht1) as (Hc2 & _).
    now apply NewClient_hit.
  - intros w2 d Hsteps Hlt Hge.
    destruct (cached_steps _ _ _ _ _ Hsteps Hlt Hinv1 Hc1 Ht1) as (_ & Ht2 & _).
    assert (clients (advance d w2) !! customerID = None) as Hgone.
    { rewrite advance_clients. eapply fire_timers_evict; eauto. }
    split; [assumption|].
    intros r3 w3 Hrun3.
    apply NewClient_run in Hrun3 as
      [(c' & Hhit & _) |
       [(_ & _ & _ & _ & _ & Hp & _ & Hpre) | (c0 & w' & _ & Hload & Hr & ->)]].
    + congruence.
    + rewrite advance_posts in Hp, Hpre. destruct Hp as [Hsame | Hone]; [right | now left].
      split; [assumption | now apply Hpre].
    + apply loadOAuthUserConfig_run in Hload as
        [(_ & Hfail & _) | (u3 & a3 & a3' & s3 & _ & _ & _ & _ & _ & Hpost)].
      { now destruct (Hfail c0). }
      cbv zeta in Hpost. destruct Hpost as [-> _].
      cbn [posts set_posts set_timers set_clients set_draws].
      rewrite advance_posts. left. eauto.
Qed.

(** C3, as the code has it.  A client made by a successful exchange is
    cached for 30 minutes from the exchange, whatever the validity window
    of the assertion that was exchanged for its credential, which ends 10
    minutes after the exchange.  Until the 30 minutes have passed every
    call for the customer id returns that client, so also at the times
    that are past the end of the validity window of the assertion. *)
Theorem credential_cached_30_minutes (customerID : string) (w0 w1 : World) (c : Client) :
  reachable w0 ->
  clients w0 !! customerID = None ->
  NewClient customerID w0 = (Val (inr c), w1) ->
  exists a a' samlString,
    NewAssertion (DefaultSAMLProviderID w0) customerID (time_Minute * 10) w0 =
      (Val a, set_draws w0 (S (draws w0))) /\
    IssueInstant a = now w0 /\
    NotOnOrAfter (Conditions a) = IssueInstant a + time_Minute * 10 /\
    Sign a (DefaultPrivateKey w0) = (a', Val None) /\
    xml_Marshal_Assertion a' = inr samlString /\
    posts w1 = posts w0 ++ [{|
      req_url := AccessTokenEndpoint;
      req_form :=
        Values_Set (Values_Set ∅ "saml_assertion" (base64_URLEncoding samlString))
          "oauth_consumer_key" (DefaultConsumerKey w0) |}] /\
    timers w1 = (now w0 + time_Minute * 30, customerID) :: timers w0 /\
    (forall w2,
       rtc step w1 w2 -> now w2 < now w0 + time_Minute * 30 ->
       NewClient customerID w2 = (Val (inr c), w2)) /\
    (forall w2,
       rtc step w1 w2 ->
       NotOnOrAfter (Conditions a) <= now w2 < now w0 + time_Minute * 30 ->
       NewClient customerID w2 = (Val (inr c), w2)).
Proof.
  intros Hreach Hmiss Hrun.
  pose proof (reachable_inv _ Hreach) as Hinv0.
  assert (cache_inv w1) as Hinv1.
  { pose proof (NewClient_inv customerID w0 Hinv0) as Hi. now rewrite Hrun in Hi. }
  destruct (NewClient_success _ _ _ _ Hmiss Hrun) as
    (u & a & a' & s & resp & _ & Hu & Ha & Hs & Hm & Hrest).
  cbv zeta in Hrest. destruct Hrest as (_ & _ & _ & Hnow & Hcl & Htm & Hposts).
  assert (clients w1 !! customerID = Some c) as Hc1.
  { rewrite Hcl. apply lookup_insert_eq. }
  assert ((now w0 + time_Minute * 30, customerID) ∈ timers w1) as Ht1.
  { rewrite Htm. now left. }
  assert (forall w2, rtc step w1 w2 -> now w2 < now w0 + time_Minute * 30 ->
            NewClient customerID w2 = (Val (inr c), w2)) as Hserved.
  { intros w2 Hsteps Hlt.
    destruct (cached_steps _ _ _ _ _ Hsteps Hlt Hinv1 Hc1 Ht1) as (Hc2 & _).
    now apply NewClient_hit. }
  exists a, a', s.
  rewrite NewAssertion_eq, Hu in Ha. injection Ha as <-.
  rewrite NewAssertion_eq, Hu. cbn [IssueInstant NotOnOrAfter Conditions].
  repeat (split; [first [assumption | reflexivity]|]).
  intros w2 Hsteps [_ Hlt]. now apply Hserved.
Qed.

End ClientClaims.

(** ** The client on the test platform *)

Lemma stub_world_reachable `{Platform} (t0 : Time) : reachable (Stub.world t0).
Proof.
  exists t0. unfold Stub.world.
  eapply rtc_l; [apply (step_SetDefaultCredentials "consumer-key" "consumer-secret" "provider.1")|].
  eapply rtc_l; [apply (step_SetDefaultPrivateKey Stub.key)|].
  apply rtc_refl.
Qed.

Lemma stub_first_call :
  @NewClient (Stub.platform Stub.endpoint_200) "alice" (Stub.world 0) =
  (Val (inr Stub.client), Stub.world_1).
Proof. vm_compute. reflexivity. Qed.

Lemma NewClient_empty_customerID_witness :
  @NewClient (Stub.platform Stub.endpoint_200) "" Stub.world_1 =
    (Val (inl "customer id must not be empty"), Stub.world_1) /\
  clients Stub.world_1 !! "" = None.
Proof.
  assert (@reachable (Stub.platform Stub.endpoint_200) Stub.world_1) as Hreach.
  { destruct (@stub_world_reachable (Stub.platform Stub.endpoint_200) 0) as [t0 Hs].
    exists t0. eapply rtc_r; [exact Hs|]. apply step_NewClient. }
  destruct (@NewClient_empty_customerID (Stub.platform Stub.endpoint_200)
              Stub.world_1 Hreach) as (Hcall & Hnone & _).
  split; assumption.
Defined.

Lemma NewClient_cache_ttl_witness :
  (exists req, posts Stub.world_1 = posts (Stub.world 0) ++ [req]) /\
  @NewClient (Stub.platform Stub.endpoint_200) "alice"
      (advance (time_Minute * 29) Stub.world_1) =
    (Val (inr Stub.client), advance (time_Minute * 29) Stub.world_1) /\
  clients (advance (time_Minute * 30) Stub.world_1) !! "alice" = None.
Proof.
  destruct (@NewClient_cache_ttl (Stub.platform Stub.endpoint_200) "alice"
              (Stub.world 0) Stub.world_1 Stub.client
              (stub_world_reachable 0) eq_refl stub_first_call)
    as (Hone & Hhit & Hevict).
  split; [exact Hone|]. split.
  - apply Hhit; [|vm_compute; reflexivity].
    apply rtc_once, step_advance. vm_compute. discriminate.
  - apply (Hevict Stub.world_1 (time_Minute * 30)).
    + apply rtc_refl.
    + vm_compute. reflexivity.
    + vm_compute. discriminate.
Defined.

(** C3 fails 15 minutes after an exchange made at time 0: the assertion
    exchanged has expired at 10 minutes, and the call returns the cached
    client without any new exchange. *)
Lemma credential_served_after_assertion_expired :
  exists a a' samlString,
    @NewAssertion (Stub.platform Stub.endpoint_200) "provider.1" "alice"
      (time_Minute * 10) (Stub.world 0) = (Val a, set_draws (Stub.world 0) 1) /\
    NotOnOrAfter (Conditions a) = time_Minute * 10 /\
    @Sign (Stub.platform Stub.endpoint_200) a (Some Stub.key) = (a', Val None) /\
    Stub.xml_Assertion a' = inr samlString /\
    @NewClient (Stub.platform Stub.endpoint_200) "alice" (Stub.world 0) =
      (Val (inr Stub.client), Stub.world_1) /\
    posts Stub.world_1 =
      [{| req_url := AccessTokenEndpoint;
          req_form :=
            Values_Set (Values_Set ∅ "saml_assertion" (Stub.base64url samlString))
              "oauth_consumer_key" "consumer-key" |}] /\
    now (advance (time_Minute * 15) Stub.world_1) = time_Minute * 15 /\
    NotOnOrAfter (Conditions a) < now (advance (time_Minute * 15) Stub.world_1) /\
    @NewClient (Stub.platform Stub.endpoint_200) "alice"
        (advance (time_Minute * 15) Stub.world_1) =
      (Val (inr Stub.client), advance (time_Minute * 15) Stub.world_1).
Proof.
  exists Stub.assertion. eexists _, _.
  split; [vm_compute; reflexivity|].
  split; [vm_compute; reflexivity|].
  split; [vm_compute; reflexivity|].
  split; [vm_compute; reflexivity|].
  split; [exact stub_first_call|].
  split; [vm_compute; reflexivity|].
  split; [vm_compute; reflexivity|].
  split; [vm_compute; reflexivity|].
  vm_compute. reflexivity.
Qed.

Lemma credential_cached_30_minutes_witness :
  @NewClient (Stub.platform Stub.endpoint_200) "alice"
      (advance (time_Minute * 15) Stub.world_1) =
    (Val (inr Stub.client), advance (time_Minute * 15) Stub.world_1) /\
  timers Stub.world_1 = [(time_Minute * 30, "alice")].
Proof.
  destruct (@credential_cached_30_minutes (Stub.platform Stub.endpoint_200) "alice"
              (Stub.world 0) Stub.world_1 Stub.client
              (stub_world_reachable 0) eq_refl stub_first_call)
    as (a & a' & s & _ & Hissue & Hwindow & _ & _ & _ & Htimers & _ & Hlate).
  split; [|exact Htimers].
  apply Hlate.
  - apply rtc_once, step_advance. vm_compute. discriminate.
  - rewrite Hwindow, Hissue. vm_compute. split; [discriminate | reflexivity].
Defined.

(** C4 fails when the endpoint cannot be reached: the error returned is
    not the error of the transport. *)
Lemma transport_error_not_unmodified :
  exists req,
    posts (@loadOAuthUserConfig (Stub.platform Stub.endpoint_down)
             (fresh_client "alice" (Stub.world 0)) (Stub.world 0)).2 = [req] /\
    @http_PostForm (Stub.platform Stub.endpoint_down) [] (req_url req) (req_form req) =
      inl "dial tcp: i/o timeout" /\
    (@loadOAuthUserConfig (Stub.platform Stub.endpoint_down)
       (fresh_client "alice" (Stub.world 0)) (Stub.world 0)).1 =
      Val (fresh_client "alice" (Stub.world 0),
           Some "token request error: dial tcp: i/o timeout") /\
    "token request error: dial tcp: i/o timeout" <> "dial tcp: i/o timeout".
Proof.
  eexists. split; [vm_compute; reflexivity|].
  split; [reflexivity|]. split; [vm_compute; reflexivity | discriminate].
Qed.

Lemma transport_error_once_and_wrapped_witness :
  (@loadOAuthUserConfig (Stub.platform Stub.endpoint_down)
     (fresh_client "alice" (Stub.world 0)) (Stub.world 0)).1 =
  Val (fresh_client "alice" (Stub.world 0),
       Some "token request error: dial tcp: i/o timeout").
Proof.
  destruct (@loadOAuthUserConfig (Stub.platform Stub.endpoint_down)
              (fresh_client "alice" (Stub.world 0)) (Stub.world 0)) as [r w'] eqn:Hrun.
  destruct (@transport_error_once_and_wrapped (Stub.platform Stub.endpoint_down)
              _ _ _ _ Hrun) as [_ Hwrap].
  simpl. eapply (fun req Hp => proj1 (Hwrap req "dial tcp: i/o timeout" Hp eq_refl)).
  apply (f_equal snd) in Hrun. simpl in Hrun. rewrite <- Hrun.
  vm_compute. reflexivity.
Defined.

Lemma authentication_error_message_witness :
  (@loadOAuthUserConfig (Stub.platform Stub.endpoint_401)
     (fresh_client "alice" (Stub.world 0)) (Stub.world 0)).1 =
  Val (fresh_client "alice" (Stub.world 0),
       Some "authentication error: 401 Unauthorized OAuth oauth_problem=signature_invalid").
Proof.
  destruct (@loadOAuthUserConfig (Stub.platform Stub.endpoint_401)
              (fresh_client "alice" (Stub.world 0)) (Stub.world 0)) as [r w'] eqn:Hrun.
  assert (exists req, posts w' = posts (Stub.world 0) ++ [req]) as [req Hposts].
  { apply (f_equal snd) in Hrun. simpl in Hrun. rewrite <- Hrun.
    eexists. vm_compute. reflexivity. }
  destruct (@authentication_error_message (Stub.platform Stub.endpoint_401)
              _ _ _ _ req _ Hrun Hposts eq_refl ltac:(discriminate))
    as (msg & decoded & -> & -> & -> & _).
  reflexivity.
Defined.

(** ** The JSON timestamp decoder *)

Lemma is_digit_range (c : ascii) :
  is_digit c = true -> 0 <= byte_of c - 48 <= 9.
Proof. unfold is_digit. lia. Qed.

Lemma digits_value_ge (s : string) (n : Z) :
  all_digits s = true -> 0 <= n -> n <= digits_value s n.
Proof.
  revert n. induction s as [|c s IH]; simpl; intros n Hd Hn; [lia|].
  apply andb_true_iff in Hd as [Hc Hs]. apply is_digit_range in Hc.
  specialize (IH (n * 10 + (byte_of c - 48)) Hs). lia.
Qed.

(** On digits the loop of [ParseUint] computes the decimal value, and
    reports a range error exactly when the value exceeds [maxUint64]. *)
Lemma ParseUint_loop_digits (s : string) (n : Z) :
  all_digits s = true -> 0 <= n <= maxUint64 ->
  ParseUint_loop s n =
  if digits_value s n <=? maxUint64 then (digits_value s n, None)
  else (maxUint64, Some ErrRange).
Proof.
  revert n. induction s as [|c s IH]; intros n Hd Hn.
  - simpl. destruct (Z.leb_spec n maxUint64); [reflexivity | lia].
  - simpl in Hd. apply andb_true_iff in Hd as [Hc Hs].
    pose proof (is_digit_range _ Hc) as Hr.
    pose proof (digits_value_ge s (n * 10 + (byte_of c - 48)) Hs) as Hge.
    cbn [ParseUint_loop digits_value]. unfold is_digit in Hc. rewrite Hc.
    destruct (Z.geb_spec (byte_of c - 48) 10) as [?|_]; [lia|].
    unfold maxUint64 in *.
    change (2 ^ 64 - 1) with 18446744073709551615 in *.
    change (18446744073709551615 / 10 + 1) with 1844674407370955162.
    change (2 ^ 64) with 18446744073709551616.
    destruct (Z.geb_spec n 1844674407370955162) as [Hcut|Hcut].
    { destruct (Z.leb_spec (digits_value s (n * 10 + (byte_of c - 48)))
                  18446744073709551615); [lia | reflexivity]. }
    destruct (Z.leb_spec 18446744073709551616 (n * 10 + (byte_of c - 48))) as [Hov|Hov].
    + assert ((n * 10 + (byte_of c - 48)) mod 18446744073709551616 =
              n * 10 + (byte_of c - 48) - 18446744073709551616) as ->.
      { symmetry. apply Z.mod_unique_pos with (q := 1); lia. }
      destruct (Z.ltb_spec (n * 10 + (byte_of c - 48) - 18446744073709551616) (n * 10));
        [|lia]. cbn [orb].
      destruct (Z.leb_spec (digits_value s (n * 10 + (byte_of c - 48)))
                  18446744073709551615); [lia | reflexivity].
    + rewrite Z.mod_small by lia.
      destruct (Z.ltb_spec (n * 10 + (byte_of c - 48)) (n * 10)); [lia|].
      destruct (Z.gtb_spec (n * 10 + (byte_of c - 48)) 18446744073709551615); [lia|].
      cbn [orb]. apply IH; [assumption | lia].
Qed.

(** On anything else the loop reports an error; a range error comes with
    the value [maxUint64]. *)
Lemma ParseUint_loop_not_digits (s : string) (n : Z) :
  all_digits s = false -> 0 <= n <= maxUint64 ->
  exists v e, ParseUint_loop s n = (v, Some e) /\ (e = ErrRange -> v = maxUint64).
Proof.
  revert n. induction s as [|c s IH]; intros n Hd Hn; [discriminate|].
  simpl in Hd. cbn [ParseUint_loop]. unfold is_digit in Hd.
  destruct ((48 <=? byte_of c) && (byte_of c <=? 57)) eqn:Hc.
  - simpl in Hd.
    destruct (byte_of c - 48 >=? 10); [exists 0, ErrSyntax; split; [reflexivity | discriminate]|].
    destruct (n >=? maxUint64 / 10 + 1); [exists maxUint64, ErrRange; auto|].
    destruct (_ || _) eqn:Hov; [exists maxUint64, ErrRange; auto|].
    apply IH; [assumption|].
    apply orb_false_iff in Hov as [_ Hgt].
    unfold maxUint64 in *. change (2 ^ 64) with 18446744073709551616 in *.
    pose proof (Z.mod_pos_bound (n * 10 + (byte_of c - 48)) 18446744073709551616).
    lia.
  - destruct ((97 <=? Z.lor (byte_of c) 32) && (Z.lor (byte_of c) 32 <=? 122)) eqn:Hl.
    + destruct (Z.geb_spec (Z.lor (byte_of c) 32 - 97 + 10) 10); [|lia].
      exists 0, ErrSyntax. split; [reflexivity | discriminate].
    + exists 0, ErrSyntax. split; [reflexivity | discriminate].
Qed.

Lemma digits_all_digits (s : string) : digits s = true -> all_digits s = true.
Proof. destruct s; [discriminate | auto]. Qed.

Lemma ParseUint_digits (s : string) :
  digits s = true ->
  ParseUint s =
  if digits_value s 0 <=? maxUint64 then (digits_value s 0, None)
  else (maxUint64, Some ErrRange).
Proof.
  intros Hd. destruct s as [|c s]; [discriminate|].
  unfold ParseUint. apply ParseUint_loop_digits; [exact Hd|].
  unfold maxUint64. lia.
Qed.

Lemma ParseUint_not_digits (s : string) :
  digits s = false ->
  exists v e, ParseUint s = (v, Some e) /\ (e = ErrRange -> v = maxUint64).
Proof.
  intros Hd. destruct s as [|c s].
  - exists 0, ErrSyntax. split; [reflexivity | discriminate].
  - unfold ParseUint. apply ParseUint_loop_not_digits; [exact Hd|].
    unfold maxUint64. lia.
Qed.

Lemma int64_small (x : Z) : - 2 ^ 63 <= x < 2 ^ 63 -> int64 x = x.
Proof.
  intros Hx. unfold int64. rewrite Z.mod_small; lia.
Qed.

Lemma digit_not_sign (c : ascii) :
  is_digit c = true -> Ascii.eqb c "+" = false /\ Ascii.eqb c "-" = false.
Proof.
  intros Hc. split; destruct (Ascii.eqb_spec c "+"), (Ascii.eqb_spec c "-");
    subst; try reflexivity; discriminate.
Qed.

Ltac zbool :=
  repeat (match goal with
          | |- context [?a <=? ?b] => destruct (Z.leb_spec a b)
          | |- context [?a <? ?b] => destruct (Z.ltb_spec a b)
          | |- context [?a >=? ?b] => destruct (Z.geb_spec a b)
          | |- context [?a >? ?b] => destruct (Z.gtb_spec a b)
          end; cbn [andb orb negb]); try lia.

(** [ParseInt] on a sign and digits. *)
Lemma ParseInt_digits (c0 : ascii) (rest s : string) (neg : bool) :
  (if Ascii.eqb c0 "+" then (false, rest)
   else if Ascii.eqb c0 "-" then (true, rest) else (false, String c0 rest)) = (neg, s) ->
  digits s = true ->
  let n := if neg then - digits_value s 0 else digits_value s 0 in
  ParseInt (String c0 rest) =
  if (- 2 ^ 63 <=? n) && (n <? 2 ^ 63) then (n, None)
  else (if neg then - 2 ^ 63 else 2 ^ 63 - 1,
        Some {| Func := "ParseInt"; Num := String c0 rest; Err := ErrRange |}).
Proof.
  intros Hsign Hd. cbv zeta. unfold ParseInt. rewrite Hsign, (ParseUint_digits _ Hd).
  pose proof (digits_value_ge s 0 (digits_all_digits _ Hd) ltac:(lia)) as Hv.
  remember (digits_value s 0) as v eqn:Ev. clear Ev.
  change (int64 (2 ^ 63 - 1)) with (2 ^ 63 - 1).
  change (int64 (- int64 (2 ^ 63))) with (- 2 ^ 63).
  unfold maxUint64. destruct neg; cbn [negb andb]; zbool; try reflexivity.
  - f_equal. destruct (Z.eq_dec v (2 ^ 63)) as [->|Hne]; [reflexivity|].
    rewrite (int64_small v) by lia. apply int64_small. lia.
  - f_equal. apply int64_small. lia.
Qed.

(** [ParseInt] on anything else. *)
Lemma ParseInt_not_digits (s : string) :
  signed_digits s = false -> exists v e, ParseInt s = (v, Some e).
Proof.
  destruct s as [|c0 rest]; [eexists _, _; reflexivity|].
  unfold signed_digits, ParseInt. intros Hd.
  set (p := if Ascii.eqb c0 "+" then (false, rest)
            else if Ascii.eqb c0 "-" then (true, rest) else (false, String c0 rest)).
  assert (digits p.2 = false) as Hp.
  { unfold p. destruct (Ascii.eqb c0 "+"), (Ascii.eqb c0 "-"); exact Hd. }
  destruct p as [neg s]. simpl in Hp.
  destruct (ParseUint_not_digits _ Hp) as (v & e & -> & Hv).
  destruct e; [eexists _, _; reflexivity|].
  rewrite (Hv eq_refl). destruct neg; eexists _, _; reflexivity.
Qed.

(** C10, as the code has it.  For every decimal integer literal, every
    JSON integer among them, of value [n] in the range of [int64],
    [UnmarshalJSON] stores [time.Unix(n/1000, 0)], where [/] truncates
    towards zero; the time stored is a whole number of seconds.  For a
    literal whose value is outside the range of [int64] it returns a range
    error and stores nothing, and so it returns an error and stores nothing
    for every input that is not a sign followed by digits: a quoted
    string, a number with a fraction or an exponent, [null]. *)
Theorem UnmarshalJSON_int64_millis (t : Time) :
  (forall s n,
     json_int s = Some n -> in_int64 n ->
     UnmarshalJSON t s = (time_Unix (n ÷ 1000) 0, None) /\
     time_Unix (n ÷ 1000) 0 = (n ÷ 1000) * 1000000000) /\
  (forall s n,
     json_int s = Some n -> ~ in_int64 n ->
     exists e, UnmarshalJSON t s = (t, Some e) /\ Err e = ErrRange) /\
  (forall s,
     signed_digits s = false ->
     exists e, UnmarshalJSON t s = (t, Some e)).
Proof.
  assert (forall s n, json_int s = Some n ->
            exists c0 rest neg s',
              s = String c0 rest /\
              (if Ascii.eqb c0 "+" then (false, rest)
               else if Ascii.eqb c0 "-" then (true, rest)
               else (false, String c0 rest)) = (neg, s') /\
              digits s' = true /\
              n = if neg then - digits_value s' 0 else digits_value s' 0) as Hjson.
  { intros [|c0 rest] n; [discriminate|]. unfold json_int.
    destruct (Ascii.eqb_spec c0 "-") as [->|Hminus].
    - destruct (digits rest) eqn:Hd; [|discriminate]. intros [= <-].
      exists "-"%char, rest, true, rest. auto.
    - destruct (digits (String c0 rest)) eqn:Hd; [|discriminate]. intros [= <-].
      exists c0, rest, false, (String c0 rest).
      simpl in Hd. apply andb_true_iff in Hd as [Hc Hr].
      destruct (digit_not_sign _ Hc) as [-> ->]. simpl. rewrite Hc, Hr. auto. }
  split; [|split].
  - intros s n Hs Hn. destruct (Hjson _ _ Hs) as (c0 & rest & neg & s' & -> & Hsign & Hd & ->).
    unfold UnmarshalJSON. rewrite (ParseInt_digits _ _ _ _ Hsign Hd). cbv zeta.
    unfold in_int64 in Hn. zbool. split; [reflexivity|].
    unfold time_Unix, time_Second. lia.
  - intros s n Hs Hn. destruct (Hjson _ _ Hs) as (c0 & rest & neg & s' & -> & Hsign & Hd & ->).
    unfold UnmarshalJSON. rewrite (ParseInt_digits _ _ _ _ Hsign Hd). cbv zeta.
    unfold in_int64 in Hn. zbool; eexists; split; reflexivity.
  - intros s Hs. destruct (ParseInt_not_digits _ Hs) as (v & e & He).
    unfold UnmarshalJSON. rewrite He. eauto.
Qed.

Lemma UnmarshalJSON_int64_millis_witness :
  UnmarshalJSON 7 "-1500" = (-1000000000, None) /\
  UnmarshalJSON 7 "1999" = (1000000000, None) /\
  (exists e, UnmarshalJSON 7 "1.5" = (7, Some e)) /\
  (exists e, UnmarshalJSON 7 (String (ascii_of_nat 34) ("1500" +:+ String (ascii_of_nat 34) ""))
             = (7, Some e)).
Proof.
  destruct (UnmarshalJSON_int64_millis 7) as (Hin & _ & Hsyn).
  split; [|split; [|split]].
  - refine (proj1 (Hin "-1500" (-1500) eq_refl _)). unfold in_int64. lia.
  - refine (proj1 (Hin "1999" 1999 eq_refl _)). unfold in_int64. lia.
  - apply Hsyn. reflexivity.
  - apply Hsyn. reflexivity.
Defined.

(** C10 fails on the JSON integer 9223372036854775808: no time is stored,
    the call returns a range error. *)
Lemma UnmarshalJSON_out_of_int64 :
  json_int "9223372036854775808" = Some 9223372036854775808 /\
  UnmarshalJSON 0 "9223372036854775808" =
    (0, Some {| Func := "ParseInt"; Num := "9223372036854775808"; Err := ErrRange |}) /\
  UnmarshalJSON 0 "9223372036854775808" <>
    (time_Unix (9223372036854775808 ÷ 1000) 0, None).
Proof. repeat split. discriminate. Qed.

(** * Further properties of the package *)

(** ** [Init] *)

Section InitProperties.
Context `{Platform}.

Lemma Init_initialized (c : Client) (w : World) :
  initialized c = true -> Init c w = (Val (c, None), w).
Proof. intros Hi. unfold Init. now rewrite Hi. Qed.

Lemma Init_fresh (c : Client) (w : World) :
  initialized c = false ->
  Init c w =
  match loadOAuthUserConfig
          (set_signer (set_clientConfig c (Some {|
             cc_ConsumerKey := DefaultConsumerKey w;
             cc_ConsumerSecret := DefaultConsumerSecret w |})) (Some HmacSha1Signer)) w with
  | (Val (c', Some err), w') => (Val (c', Some err), w')
  | (Val (c', None), w') => (Val (set_initialized c' true, None), w')
  | (Panic msg, w') => (Panic msg, w')
  end.
Proof.
  intros Hi. unfold Init. rewrite Hi. unfold_M.
  destruct (loadOAuthUserConfig _ w) as [[[c' [err|]]|msg] w']; reflexivity.
Qed.

(** When [loadOAuthUserConfig] returns an error, the client is the one
    it was given. *)
Lemma loadOAuthUserConfig_error_client (c c' : Client) (w w' : World) (err : error) :
  loadOAuthUserConfig c w = (Val (c', Some err), w') -> c' = c.
Proof.
  intros Hrun. apply loadOAuthUserConfig_run in Hrun as
    [(_ & _ & _ & Hempty & Hpre) | (u & a & a' & s & _ & _ & _ & _ & _ & Hpost)].
  - destruct (decide (CustomerID c = "")) as [Hid|Hid].
    + destruct (Hempty Hid) as [E _]. congruence.
    + destruct (Hpre Hid) as (e & [E | [E | E]]); congruence.
  - cbv zeta in Hpost. destruct Hpost as [_ Hanswer].
    destruct (http_PostForm _ _ _) as [e|resp]; [congruence|].
    destruct (decide (StatusCode resp ≠ http_StatusOK)); congruence.
Qed.

(** X1.  [Init] is idempotent.  Once a call of [Init] has returned [nil], the
    client is marked initialized, and every later call of [Init] on it
    returns [nil] at once: the client and the world are as they were, so
    no second token exchange is made. *)
Theorem Init_idempotent (c c' : Client) (w w' : World) :
  Init c w = (Val (c', None), w') ->
  initialized c' = true /\
  forall w2, Init c' w2 = (Val (c', None), w2) /\ posts (Init c' w2).2 = posts w2.
Proof.
  intros Hrun.
  assert (initialized c' = true) as Hi.
  { destruct (initialized c) eqn:Hc.
    - rewrite (Init_initialized _ _ Hc) in Hrun. congruence.
    - rewrite (Init_fresh _ _ Hc) in Hrun.
      destruct (loadOAuthUserConfig _ w) as [[[c0 [err|]]|msg] w0];
        [discriminate | | discriminate].
      injection Hrun as <- _. reflexivity. }
  split; [assumption|]. intros w2. now rewrite (Init_initialized _ _ Hi).
Qed.

(** X2.  A failed [Init] can be tried again.  When [Init] returns an error on a
    client that is not initialized, the client stays uninitialized and
    without credential, only its client configuration and its signer have
    been set, one POST at most has been made, and a later call of [Init]
    on it does what that call does on the client as it was at first. *)
Theorem Init_failure_retry (c c' : Client) (w w' : World) (err : error) :
  initialized c = false ->
  Init c w = (Val (c', Some err), w') ->
  initialized c' = false /\
  userConfig c' = userConfig c /\
  c' = set_signer (set_clientConfig c (Some {|
         cc_ConsumerKey := DefaultConsumerKey w;
         cc_ConsumerSecret := DefaultConsumerSecret w |})) (Some HmacSha1Signer) /\
  (posts w' = posts w \/ exists req, posts w' = posts w ++ [req]) /\
  forall w2, Init c' w2 = Init c w2.
Proof.
  intros Hc Hrun. rewrite (Init_fresh _ _ Hc) in Hrun.
  destruct (loadOAuthUserConfig _ w) as [[[c0 [e|]]|msg] w0] eqn:Hload;
    [| discriminate | discriminate].
  injection Hrun as -> -> ->.
  pose proof (loadOAuthUserConfig_error_client _ _ _ _ _ Hload) as ->.
  split; [exact Hc|]. split; [reflexivity|]. split; [reflexivity|].
  split; [now apply loadOAuthUserConfig_frame in Hload|].
  intros w2. rewrite !Init_fresh by assumption.
  destruct c; reflexivity.
Qed.

(** X3.  [Init] takes the OAuth client configuration from the defaults of the
    package, whatever the consumer key and secret of the client, while the
    token request carries the consumer key of the client.  When [Init]
    succeeds on a client that is not initialized it has made one POST,
    whose form holds the consumer key of the client; the configuration it
    leaves in the client holds the default key and secret, and the key
    and secret of the client are as they were. *)
Theorem Init_configuration (c c' : Client) (w w' : World) :
  initialized c = false ->
  Init c w = (Val (c', None), w') ->
  clientConfig c' = Some {|
    cc_ConsumerKey := DefaultConsumerKey w;
    cc_ConsumerSecret := DefaultConsumerSecret w |} /\
  signer c' = Some HmacSha1Signer /\
  is_Some (userConfig c') /\
  ConsumerKey c' = ConsumerKey c /\ ConsumerSecret c' = ConsumerSecret c /\
  CustomerID c' = CustomerID c /\ CustomerID c <> "" /\
  exists req,
    posts w' = posts w ++ [req] /\
    req_url req = AccessTokenEndpoint /\
    req_form req !! "oauth_consumer_key" = Some [ConsumerKey c].
Proof.
  intros Hc Hrun. rewrite (Init_fresh _ _ Hc) in Hrun.
  destruct (loadOAuthUserConfig _ w) as [[[c0 [e|]]|msg] w0] eqn:Hload;
    [discriminate | | discriminate].
  injection Hrun as <- <-.
  apply loadOAuthUserConfig_run in Hload as
    [(_ & Hfail & _) | (u & a & a' & s & Hne & _ & _ & _ & _ & Hpost)].
  { now destruct (Hfail c0). }
  cbv zeta in Hpost. destruct Hpost as [-> Hanswer].
  destruct (http_PostForm _ _ _) as [e|resp]; [discriminate|].
  destruct (decide (StatusCode resp ≠ http_StatusOK)); [discriminate|].
  injection Hanswer as ->. cbn.
  split; [reflexivity|]. split; [reflexivity|]. split; [eauto|].
  split; [reflexivity|]. split; [reflexivity|]. split; [reflexivity|].
  split; [exact Hne|].
  eexists. split; [reflexivity|]. split; [reflexivity|].
  cbn [req_form]. unfold Values_Set. now rewrite lookup_insert_eq.
Qed.

End InitProperties.

(** ** The cache, further *)

Lemma fire_timers_lookup_Some (t : Time) (tms : list (Time * string))
    (m : gmap string Client) (k : string) (c : Client) :
  (fire_timers t tms m).2 !! k = Some c -> m !! k = Some c.
Proof.
  induction tms as [|[dl k'] tms IH]; simpl; [auto|].
  destruct (fire_timers t tms m) as [rest' m'] eqn:Hf. simpl in IH.
  destruct (dl <=? t); simpl; [|assumption].
  intros Hl. apply lookup_delete_Some in Hl as [_ Hl]. auto.
Qed.

Section CacheProperties.
Context `{Platform}.

(** Induction over the reachable worlds. *)
Lemma reachable_ind (I : World -> Prop) :
  (forall t0, I (init_world t0)) ->
  (forall w w', reachable w -> I w -> step w w' -> I w') ->
  forall w, reachable w -> I w.
Proof.
  intros Hinit Hstep w [t0 Hsteps]. revert w Hsteps.
  apply rtc_ind_r; [apply Hinit|].
  intros w1 w2 Hs12 Hs IH.
  eapply Hstep; [exists t0; exact Hs12 | exact IH | exact Hs].
Qed.

(** Every cached client has a pending timer, due within 30 minutes. *)
Lemma timers_inv (w : World) (k : string) (c : Client) :
  reachable w -> clients w !! k = Some c ->
  exists deadline,
    (deadline, k) ∈ timers w /\ now w < deadline <= now w + time_Minute * 30.
Proof.
  intros Hreach. revert k c. pattern w.
  apply reachable_ind; [| | exact Hreach]; clear w Hreach;
    [intros t0 k c Hc | intros w w' Hreach IH Hs k c Hc].
  - discriminate Hc.
  - destruct Hs as [k' w | d w Hd | ck cs sp w | key w]; [| | eauto | eauto].
    + destruct (NewClient k' w) as [r w'] eqn:Hrun. simpl in Hc |- *.
      apply NewClient_run in Hrun as
        [(c' & _ & _ & ->) | [(_ & _ & Hn & Hcl & Htl & _) | (c0 & w0 & Hmiss & Hload & _ & ->)]].
      * eauto.
      * rewrite Hn, Htl. rewrite Hcl in Hc. eauto.
      * apply loadOAuthUserConfig_frame in Hload as (Hn & _).
        cbn [clients timers now set_timers set_clients] in Hc |- *. rewrite Hn.
        destruct (decide (k' = k)) as [->|Hne].
        -- exists (now w + time_Minute * 30). split; [now left|].
           unfold time_Minute, time_Second. lia.
        -- rewrite lookup_insert_ne in Hc by assumption.
           destruct (IH _ _ Hc) as (dl & Hin & Hdl). exists dl. split; [now right | assumption].
    + rewrite advance_clients in Hc. rewrite advance_timers, advance_now.
      pose proof (fire_timers_lookup_Some _ _ _ _ _ Hc) as Hc0.
      destruct (IH _ _ Hc0) as (dl & Hin & Hdl). exists dl.
      destruct (Z.le_gt_cases dl (now w + d)) as [Hdue|Hlate].
      * rewrite (fire_timers_evict _ _ _ _ _ Hin Hdue) in Hc. discriminate.
      * split; [apply fire_timers_pending; split; [assumption | lia] | lia].
Qed.

(** Every cached client went through a successful [Init]. *)
Lemma clients_ready (w : World) (k : string) (c : Client) :
  reachable w -> clients w !! k = Some c ->
  CustomerID c = k /\ k <> "" /\
  initialized c = true /\
  is_Some (userConfig c) /\ is_Some (clientConfig c) /\
  signer c = Some HmacSha1Signer.
Proof.
  intros Hreach. revert k c. pattern w.
  apply reachable_ind; [| | exact Hreach]; clear w Hreach;
    [intros t0 k c Hc | intros w w' Hreach IH Hs k c Hc].
  - discriminate Hc.
  - destruct Hs as [k' w | d w Hd | ck cs sp w | key w]; [| | eauto | eauto].
    + destruct (NewClient k' w) as [r w'] eqn:Hrun. simpl in Hc.
      pose proof Hrun as Hrun0.
      apply NewClient_run in Hrun as
        [(c' & _ & _ & ->) | [(_ & _ & _ & Hcl & _) | (c0 & w0 & Hmiss & _ & -> & _)]].
      * eauto.
      * rewrite Hcl in Hc. eauto.
      * destruct (NewClient_success _ _ _ _ Hmiss Hrun0) as
          (u & a & a' & s & resp & Hne & _ & _ & _ & _ & Hrest).
        cbv zeta in Hrest. destruct Hrest as (_ & _ & Hc0 & _ & Hcl & _).
        rewrite Hcl in Hc. destruct (decide (k' = k)) as [->|Hk].
        -- rewrite lookup_insert_eq in Hc. injection Hc as <-. rewrite Hc0. cbn.
           repeat split; eauto.
        -- rewrite lookup_insert_ne in Hc by assumption. eauto.
    + rewrite advance_clients in Hc. apply fire_timers_lookup_Some in Hc. eauto.
Qed.

(** X4.  The clients of the cache are ready for use.  In every reachable world
    a cached client is stored under its own customer id, which is not
    empty, it is initialized, and it carries a credential, the client
    configuration and the HMAC-SHA1 signer. *)
Theorem cached_client_initialized (w : World) (k : string) (c : Client) :
  reachable w -> clients w !! k = Some c ->
  CustomerID c = k /\ k <> "" /\
  initialized c = true /\
  is_Some (userConfig c) /\ is_Some (clientConfig c) /\
  signer c = Some HmacSha1Signer.
Proof. apply clients_ready. Qed.

(** X5.  No entry of the cache outlives 30 minutes.  In every reachable world
    every cached client has a pending timer whose deadline is later than
    now and 30 minutes from now at the latest. *)
Theorem cached_client_timer (w : World) (k : string) (c : Client) :
  reachable w -> clients w !! k = Some c ->
  exists deadline,
    (deadline, k) ∈ timers w /\ now w < deadline <= now w + time_Minute * 30.
Proof. apply timers_inv. Qed.

(** X6.  When 30 minutes or more pass without a call, the cache is empty and
    no timer is pending. *)
Theorem cache_empty_after_30_minutes (w : World) (d : Duration) :
  reachable w -> time_Minute * 30 <= d ->
  clients (advance d w) = ∅ /\ timers (advance d w) = [].
Proof.
  intros Hreach Hd. destruct (reachable_inv _ Hreach) as (_ & _ & Htm).
  split.
  - apply map_eq. intros k. rewrite lookup_empty, advance_clients.
    destruct (clients w !! k) as [c|] eqn:Hc; [|now apply fire_timers_None].
    destruct (timers_inv _ _ _ Hreach Hc) as (dl & Hin & Hdl).
    eapply fire_timers_evict; [exact Hin | lia].
  - rewrite advance_timers.
    destruct (fire_timers _ _ _).1 as [|[dl k] rest] eqn:Hf; [reflexivity|].
    assert ((dl, k) ∈ (fire_timers (now w + d) (timers w) (clients w)).1) as Hin.
    { rewrite Hf. now left. }
    apply fire_timers_pending in Hin as [Hin Hlate].
    destruct (Htm _ _ Hin) as [c Hc].
    destruct (timers_inv _ _ _ Hreach Hc) as (dl' & Hin' & Hdl').
    destruct (reachable_inv _ Hreach) as (_ & Hnd & _).
    rewrite (timer_unique _ _ _ _ Hnd Hin Hin') in Hlate. lia.
Qed.

(** X7.  What a call of [NewClient] does to the cache.  It returns a client
    exactly when, after the call, that client is cached under the
    customer id; the entries of the other customer ids are as they were;
    and when it returns an error or panics, the cache and the timers are
    as they were and the clock has not moved: nothing partial is stored. *)
Theorem NewClient_cache_effect (customerID : string) (w w' : World)
    (r : Outcome (error + Client)) :
  NewClient customerID w = (r, w') ->
  (forall c, r = Val (inr c) <-> clients w' !! customerID = Some c) /\
  (forall k, k <> customerID -> clients w' !! k = clients w !! k) /\
  ((forall c, r <> Val (inr c)) ->
   clients w' = clients w /\ timers w' = timers w /\ now w' = now w).
Proof.
  intros Hrun. apply NewClient_run in Hrun as
    [(c' & Hhit & -> & ->) |
     [(Hmiss & Hfail & Hn & Hcl & Htl & _) | (c0 & w0 & Hmiss & Hload & -> & ->)]].
  - split; [|split].
    + intros c. rewrite Hhit. split; congruence.
    + auto.
    + intros Hfail. now destruct (Hfail c').
  - split; [|split].
    + intros c. rewrite Hcl, Hmiss. split; [intros ->; now destruct (Hfail c) | discriminate].
    + intros k _. now rewrite Hcl.
    + auto.
  - cbn [clients timers now set_timers set_clients]. split; [|split].
    + intros c. rewrite lookup_insert_eq. split; congruence.
    + intros k Hk. now rewrite lookup_insert_ne.
    + intros Hfail. now destruct (Hfail (set_initialized c0 true)).
Qed.





(** With a nil key [Sign] never succeeds. *)
Lemma Sign_nil_key (a a' : Assertion) : Sign a None <> (a', Val None).
Proof.
  unfold Sign, signatureValue.
  destruct (xml_Marshal_Assertion a); [congruence|].
  destruct (xml_Marshal_signedInfo _); congruence.
Qed.

Lemma NewClient_nil_key (customerID : string) (w w' : World)
    (r : Outcome (error + Client)) :
  DefaultPrivateKey w = None ->
  clients w !! customerID = None ->
  NewClient customerID w = (r, w') ->
  (forall c, r <> Val (inr c)) /\ posts w' = posts w /\ clients w' = clients w /\
  exists r0,
    loadOAuthUserConfig (fresh_client customerID w) w = (r0, w') /\
    (forall msg, r0 = Panic msg -> r = Panic msg).
Proof.
  intros Hkey Hmiss Hrun.
  rewrite (NewClient_miss _ _ Hmiss) in Hrun.
  destruct (loadOAuthUserConfig (fresh_client customerID w) w) as [r0 w0] eqn:Hload.
  pose proof Hload as Hload0.
  apply loadOAuthUserConfig_run in Hload as
    [(Hsame & Hfail & _) | (u & a & a' & s & _ & _ & _ & Hs & _)].
  2:{ cbn [PrivateKey fresh_client] in Hs. rewrite Hkey in Hs.
      now destruct (Sign_nil_key a a'). }
  assert ((forall c, r <> Val (inr c)) /\ w' = w0 /\
          (forall msg, r0 = Panic msg -> r = Panic msg)) as (Hnone & -> & Hpanic).
  { destruct r0 as [[c0 [e|]]|msg].
    - injection Hrun as <- <-. repeat split; congruence.
    - now destruct (Hfail c0).
    - injection Hrun as <- <-. repeat split; congruence. }
  split; [assumption|]. split; [assumption|].
  split; [now apply loadOAuthUserConfig_frame in Hload0|].
  exists r0. auto.
Qed.

(** X9.  Without a private key no client is made and nothing is posted.  When
    no default private key is set, a call of [NewClient] for a customer
    id that is not cached returns no client and leaves the request log
    and the cache as they were; when besides the id is not empty, the UUID
    is delivered and both serializations succeed, the call panics on the
    nil key. *)
Theorem NewClient_without_private_key (customerID : string) (w w' : World)
    (r : Outcome (error + Client)) :
  DefaultPrivateKey w = None ->
  clients w !! customerID = None ->
  NewClient customerID w = (r, w') ->
  (forall c, r <> Val (inr c)) /\ posts w' = posts w /\ clients w' = clients w /\
  (forall w1 a x y,
     customerID <> "" ->
     NewAssertion (DefaultSAMLProviderID w) customerID (time_Minute * 10) w =
       (Val a, w1) ->
     xml_Marshal_Assertion a = inr x ->
     xml_Marshal_signedInfo (signedInfo_of a x) = inr y ->
     r = Panic "runtime error: invalid memory address or nil pointer dereference").
Proof.
  intros Hkey Hmiss Hrun.
  destruct (NewClient_nil_key _ _ _ _ Hkey Hmiss Hrun) as
    (Hnone & Hposts & Hcl & r0 & Hload & Hpanic).
  repeat (split; [assumption|]).
  intros w1 a x y Hne Ha Hx Hy. apply Hpanic.
  unfold loadOAuthUserConfig in Hload.
  destruct (decide (CustomerID (fresh_client customerID w) = "")) as [Hid|_];
    [now destruct Hne|].
  unfold mbind at 1, M_bind at 1 in Hload.
  cbn [SAMLProviderID CustomerID PrivateKey fresh_client] in Hload.
  rewrite Ha in Hload. unfold mbind at 1, M_bind at 1 in Hload.
  rewrite Sign_local_eq in Hload. rewrite Hkey in Hload.
  unfold Sign, signatureValue in Hload. rewrite Hx in Hload.
  fold (signedInfo_of a x) in Hload. rewrite Hy in Hload.
  apply (f_equal fst) in Hload. simpl in Hload. now symmetry.
Qed.

(** X10.  A failure of the random source is a panic.  When the draw of the UUID
    fails, a call of [NewClient] for a customer id that is not empty and
    not cached panics with the error of the draw; nothing is posted and
    nothing is cached. *)
Theorem NewClient_panics_without_uuid (customerID : string) (w : World) (e : error) :
  customerID <> "" ->
  clients w !! customerID = None ->
  uuid_NewV4 (draws w) = inl e ->
  NewClient customerID w = (Panic e, set_draws w (S (draws w))) /\
  samlRequestID w = (Panic e, set_draws w (S (draws w))).
Proof.
  intros Hne Hmiss Hu. split; [|now rewrite samlRequestID_eq, Hu].
  rewrite (NewClient_miss _ _ Hmiss). unfold loadOAuthUserConfig.
  destruct (decide (CustomerID (fresh_client customerID w) = "")) as [Hid|_];
    [now destruct Hne|].
  unfold mbind at 1, M_bind at 1. now rewrite NewAssertion_eq, Hu.
Qed.

End CacheProperties.

(** ** The JSON timestamp decoder, further *)

Lemma ParseInt_error_fields (s : string) (v : Z) (e : NumError) :
  ParseInt s = (v, Some e) -> Func e = "ParseInt" /\ Num e = s.
Proof.
  destruct s as [|c0 rest]; [intros [= _ <-]; auto|].
  unfold ParseInt.
  destruct (if Ascii.eqb c0 "+" then (false, rest)
            else if Ascii.eqb c0 "-" then (true, rest) else (false, String c0 rest))
    as [neg s'].
  destruct (ParseUint s') as [un [[]|]];
    repeat (match goal with
            | |- context [if ?b then _ else _] => destruct b
            end);
    intros [= _ <-]; auto.
Qed.

Lemma UnmarshalJSON_signed_digits (t : Time) (s : string) :
  signed_digits s = true ->
  UnmarshalJSON t s =
  if (- 2 ^ 63 <=? signed_value s) && (signed_value s <? 2 ^ 63)
  then (time_Unix (signed_value s ÷ 1000) 0, None)
  else (t, Some {| Func := "ParseInt"; Num := s; Err := ErrRange |}).
Proof.
  destruct s as [|c0 rest]; [discriminate|]. unfold signed_digits, signed_value.
  intros Hd. unfold UnmarshalJSON.
  destruct (Ascii.eqb c0 "+") eqn:Hplus; [|destruct (Ascii.eqb c0 "-") eqn:Hminus];
    cbn [orb] in Hd.
  - rewrite (ParseInt_digits c0 rest rest false) by (rewrite ?Hplus; auto).
    cbv zeta. now destruct (_ && _).
  - rewrite (ParseInt_digits c0 rest rest true) by (rewrite ?Hplus, ?Hminus; auto).
    cbv zeta. now destruct (_ && _).
  - rewrite (ParseInt_digits c0 rest (String c0 rest) false)
      by (rewrite ?Hplus, ?Hminus; auto).
    cbv zeta. now destruct (_ && _).
Qed.

Lemma json_int_signed (s : string) (n : Z) :
  json_int s = Some n -> signed_digits s = true /\ signed_value s = n.
Proof.
  destruct s as [|c0 rest]; [discriminate|]. unfold json_int, signed_digits, signed_value.
  destruct (Ascii.eqb_spec c0 "-") as [->|Hminus].
  - destruct (digits rest); [|discriminate]. intros [= <-]. auto.
  - destruct (digits (String c0 rest)) eqn:Hd; [|discriminate]. intros [= <-].
    pose proof Hd as Hd0. simpl in Hd. apply andb_true_iff in Hd as [Hc Hr].
    destruct (digit_not_sign _ Hc) as [-> _]. cbn [orb]. auto.
Qed.

Lemma UnmarshalJSON_in_range (t : Time) (s : string) (n : Z) :
  json_int s = Some n -> in_int64 n ->
  UnmarshalJSON t s = (time_Unix (n ÷ 1000) 0, None) /\
  time_Unix (n ÷ 1000) 0 = (n ÷ 1000) * 1000000000.
Proof.
  intros Hs Hn. destruct (json_int_signed _ _ Hs) as [Hd <-].
  rewrite (UnmarshalJSON_signed_digits _ _ Hd). unfold in_int64 in Hn.
  zbool. split; [reflexivity | unfold time_Unix, time_Second; lia].
Qed.

(** X11.  The inputs that [UnmarshalJSON] decodes are the signs followed by
    digits whose value is in the range of [int64], a leading [+] and
    leading zeros included.  On each of them it stores the whole second
    of the value; on every other input it returns an error that names
    [ParseInt] and the input, and the time is as it was. *)
Theorem UnmarshalJSON_decodes_iff (t : Time) (s : string) :
  (signed_digits s = true /\ in_int64 (signed_value s) ->
   UnmarshalJSON t s = (time_Unix (signed_value s ÷ 1000) 0, None)) /\
  (~ (signed_digits s = true /\ in_int64 (signed_value s)) ->
   exists e, UnmarshalJSON t s = (t, Some e) /\ Func e = "ParseInt" /\ Num e = s) /\
  (forall t', UnmarshalJSON t s = (t', None) ->
   signed_digits s = true /\ in_int64 (signed_value s)).
Proof.
  pose proof (UnmarshalJSON_signed_digits t s) as Hdig.
  assert (signed_digits s = false ->
          exists e, UnmarshalJSON t s = (t, Some e) /\ Func e = "ParseInt" /\ Num e = s)
    as Hnot.
  { intros Hd. destruct (ParseInt_not_digits _ Hd) as (v & e & He).
    exists e. unfold UnmarshalJSON. rewrite He. split; [reflexivity|].
    eapply ParseInt_error_fields, He. }
  unfold in_int64. split; [|split].
  - intros [Hd Hr]. rewrite (Hdig Hd). zbool. reflexivity.
  - intros Hno. destruct (signed_digits s) eqn:Hd; [|auto].
    rewrite (Hdig eq_refl).
    destruct ((- 2 ^ 63 <=? signed_value s) && (signed_value s <? 2 ^ 63)) eqn:Hr.
    + exfalso. apply Hno. split; [reflexivity | lia].
    + eexists. repeat split.
  - intros t' Hok. destruct (signed_digits s) eqn:Hd.
    + split; [reflexivity|]. rewrite (Hdig eq_refl) in Hok.
      destruct ((- 2 ^ 63 <=? signed_value s) && (signed_value s <? 2 ^ 63)) eqn:Hr;
        [lia | discriminate].
    + destruct (Hnot eq_refl) as (e & He & _). congruence.
Qed.

(** X12.  The decoder rounds towards the epoch, by less than a second.  For a
    decimal literal of value [n] milliseconds in the range of [int64], the
    time stored is a whole number of seconds, less than a second away
    from the instant [n] milliseconds; it is not later than that instant
    when [n] is positive and not earlier when [n] is negative: the
    instants of the second before the epoch are stored as the epoch. *)
Theorem UnmarshalJSON_rounds_towards_epoch (t : Time) (s : string) (n : Z) :
  json_int s = Some n -> in_int64 n ->
  exists stored,
    UnmarshalJSON t s = (stored, None) /\
    stored mod time_Second = 0 /\
    Z.abs (n * 1000000 - stored) < time_Second /\
    (0 <= n -> stored <= n * 1000000) /\
    (n <= 0 -> n * 1000000 <= stored) /\
    (- 1000 < n < 1000 -> stored = 0).
Proof.
  intros Hs Hn.
  destruct (UnmarshalJSON_in_range t s n Hs Hn) as [Hrun Hval].
  exists (time_Unix (n ÷ 1000) 0). split; [exact Hrun|].
  rewrite Hval. unfold time_Second.
  split; [apply Z_mod_mult|].
  repeat split; try intros ?; Z.to_euclidean_division_equations; lia.
Qed.

(** X13.  The decoder keeps the order of the timestamps: of two literals in the
    range of [int64], the one of smaller value is stored as the earlier
    time, or as the same. *)
Theorem UnmarshalJSON_monotone (t1 t2 : Time) (s1 s2 : string) (n1 n2 : Z) :
  json_int s1 = Some n1 -> json_int s2 = Some n2 ->
  in_int64 n1 -> in_int64 n2 -> n1 <= n2 ->
  exists stored1 stored2,
    UnmarshalJSON t1 s1 = (stored1, None) /\
    UnmarshalJSON t2 s2 = (stored2, None) /\
    stored1 <= stored2.
Proof.
  intros Hs1 Hs2 Hn1 Hn2 Hle.
  destruct (UnmarshalJSON_in_range t1 s1 n1 Hs1 Hn1) as [Hrun1 Hval1].
  destruct (UnmarshalJSON_in_range t2 s2 n2 Hs2 Hn2) as [Hrun2 Hval2].
  eexists _, _. split; [exact Hrun1|]. split; [exact Hrun2|].
  rewrite Hval1, Hval2.
  pose proof (Z.quot_le_mono n1 n2 1000 ltac:(lia) Hle). lia.
Qed.

(** ** [SetDefaultPrivateKeyFromPEM] *)

Section PemProperties.
Context `{Platform} `{PemPlatform}.

(** X14.  [SetDefaultPrivateKeyFromPEM] never returns an error: it returns
    [nil], with the parsed key as the default and the world otherwise as
    it was, which is a world the package can be in, or it panics.  It
    returns [nil] exactly when the data are read, hold a PEM block, and
    the block parses as a PKCS#1 key.  It never touches the cache, the
    timers or the request log. *)
Theorem SetDefaultPrivateKeyFromPEM_nil_or_panic (pemData : error + string)
    (w w' : World) (r : Outcome (option error)) :
  SetDefaultPrivateKeyFromPEM pemData w = (r, w') ->
  (forall e, r <> Val (Some e)) /\
  (r = Val None <->
   exists pemBytes block key,
     pemData = inr pemBytes /\ pem_Decode pemBytes = Some block /\
     x509_ParsePKCS1PrivateKey block = inr key /\
     w' = SetDefaultPrivateKey key w) /\
  (r = Val None -> reachable w -> reachable w') /\
  clients w' = clients w /\ timers w' = timers w /\ posts w' = posts w /\
  now w' = now w.
Proof.
  unfold SetDefaultPrivateKeyFromPEM.
  destruct pemData as [err|pemBytes].
  { intros [= <- <-]. repeat split; try congruence.
    intros (? & ? & ? & ? & _). discriminate. }
  destruct (pem_Decode pemBytes) as [block|] eqn:Hpem.
  2:{ intros [= <- <-]. repeat split; try congruence.
      intros (? & ? & ? & [= <-] & ? & _). congruence. }
  destruct (x509_ParsePKCS1PrivateKey block) as [err|key] eqn:Hkey.
  { intros [= <- <-]. repeat split; try congruence.
    intros (? & ? & ? & [= <-] & ? & ? & _). congruence. }
  intros [= <- <-]. repeat split; try congruence.
  - intros _. exists pemBytes, block, key. auto.
  - intros _ [t0 Hsteps]. exists t0. eapply rtc_r; [exact Hsteps|].
    apply (step_SetDefaultPrivateKey key).
Qed.

(** X15.  A key that does not parse clears the default key.  When the data hold
    a PEM block that does not parse as a PKCS#1 key, the call panics with
    the text "bad private key: " and the error, and the default private
    key is nil afterwards, whatever key was set before; from then on a
    call of [NewClient] for a customer id that is not cached returns no
    client and posts nothing.  When the data cannot be read or hold no
    PEM block, the call panics and the world is as it was. *)
Theorem SetDefaultPrivateKeyFromPEM_failure (pemData : error + string)
    (w w' : World) (msg : string) :
  SetDefaultPrivateKeyFromPEM pemData w = (Panic msg, w') ->
  (forall pemBytes block,
     pemData = inr pemBytes -> pem_Decode pemBytes = Some block ->
     exists err,
       x509_ParsePKCS1PrivateKey block = inl err /\
       msg = "bad private key: " +:+ err /\
       DefaultPrivateKey w' = None /\
       forall customerID r w2,
         clients w' !! customerID = None ->
         NewClient customerID w' = (r, w2) ->
         (forall c, r <> Val (inr c)) /\ posts w2 = posts w') /\
  ((forall pemBytes, pemData = inr pemBytes -> pem_Decode pemBytes = None) ->
   w' = w).
Proof.
  unfold SetDefaultPrivateKeyFromPEM. intros Hrun. split.
  - intros pemBytes block -> Hpem. rewrite Hpem in Hrun.
    destruct (x509_ParsePKCS1PrivateKey block) as [err|key]; [|discriminate].
    injection Hrun as <- <-. exists err.
    split; [reflexivity|]. split; [reflexivity|]. split; [reflexivity|].
    intros customerID r w2 Hmiss Hcall.
    destruct (NewClient_nil_key customerID (set_DefaultPrivateKey w None) w2 r
                eq_refl Hmiss Hcall) as (Hr & Hp & _).
    auto.
  - intros Hno. destruct pemData as [err|pemBytes]; [now injection Hrun as _ <-|].
    rewrite (Hno _ eq_refl) in Hrun. now injection Hrun as _ <-.
Qed.

End PemProperties.

(** ** [TransactionList.UnmarshalJSON] *)

Lemma string_drop_append (pre s : string) :
  string_drop (String.length pre) (pre +:+ s) = s.
Proof. induction pre as [|c pre IH]; [reflexivity|]. exact IH. Qed.

Lemma string_drop_split (n : nat) (s : string) :
  exists pre, s = pre +:+ string_drop n s.
Proof.
  revert s. induction n as [|n IH]; intros s; [now exists ""|].
  destruct s as [|c s]; [now exists ""|].
  destruct (IH s) as [pre Hpre]. exists (String c pre).
  rewrite append_cons. simpl. now rewrite <- Hpre.
Qed.

(** [strings.HasSuffix]: the string ends with the suffix. *)
Lemma strings_HasSuffix_spec (s suffix : string) :
  strings_HasSuffix s suffix = true <-> exists pre, s = pre +:+ suffix.
Proof.
  unfold strings_HasSuffix. rewrite andb_true_iff, Nat.leb_le, String.eqb_eq. split.
  - intros [_ Hdrop].
    destruct (string_drop_split (String.length s - String.length suffix) s) as [pre Hpre].
    exists pre. now rewrite <- Hdrop.
  - intros [pre ->]. rewrite length_append. split; [lia|].
    replace (String.length pre + String.length suffix - String.length suffix)%nat
      with (String.length pre) by lia.
    apply string_drop_append.
Qed.

Section TransactionListProperties.
Context {Transaction : Type} `{JsonPlatform Transaction}.


(** The loop on a map that is not nil never panics, and it returns [nil]
    exactly when every value under a key that ends in "Transactions"
    decodes. *)
Lemma UnmarshalJSON_range_nil_iff (entries : list (string * string)) (m : (gmap string (list Transaction))) :
  (exists m', UnmarshalJSON_range entries (Some m) = (Some m', Val None)) <->
  (forall key raw,
     (key, raw) ∈ entries -> strings_HasSuffix key "Transactions" = true ->
     exists txns, json_Unmarshal_txns raw = inr txns).
Proof.
  revert m. induction entries as [|[key raw] entries IH]; intros m.
  - split; [intros _ key raw Hin; now apply elem_of_nil in Hin | eauto].
  - cbn [UnmarshalJSON_range].
    destruct (strings_HasSuffix key "Transactions") eqn:Hsuf; cbn [negb].
    + destruct (json_Unmarshal_txns raw) as [err|txns] eqn:Hraw.
      * split; [intros [m' Hm']; discriminate|].
        intros Hall. destruct (Hall key raw (list_elem_of_here _ _) Hsuf) as [txns Ht].
        congruence.
      * rewrite IH. split.
        -- intros Hall k r Hin Hk. apply elem_of_cons in Hin as [ [= ? ?] | Hin]; subst; eauto.
        -- intros Hall k r Hin Hk. apply (Hall k r); [now right | assumption].
    + rewrite IH. split.
      * intros Hall k r Hin Hk. apply elem_of_cons in Hin as [ [= ? ?] | Hin]; subst;
          [congruence | eauto].
      * intros Hall k r Hin Hk. apply (Hall k r); [now right | assumption].
Qed.

(** What the loop leaves in a map that is not nil, whatever it returns:
    the map is still not nil, and it returns an error only for a value it
    could not decode. *)
Lemma UnmarshalJSON_range_effect (entries : list (string * string)) (m : (gmap string (list Transaction)))
    (t' : option (gmap string (list Transaction))) (r : Outcome (option error)) :
  UnmarshalJSON_range entries (Some m) = (t', r) ->
  exists m',
    t' = Some m' /\
    (forall key,
       m' !! key = m !! key \/
       (strings_HasSuffix key "Transactions" = true /\
        exists raw txns,
          (key, raw) ∈ entries /\ json_Unmarshal_txns raw = inr txns /\
          m' !! key = Some txns)) /\
    (r = Val None \/
     exists key raw err,
       (key, raw) ∈ entries /\ strings_HasSuffix key "Transactions" = true /\
       json_Unmarshal_txns raw = inl err /\ r = Val (Some err)).
Proof.
  revert m. induction entries as [|[key raw] entries IH]; intros m.
  - intros [= <- <-]. exists m. auto.
  - cbn [UnmarshalJSON_range].
    destruct (strings_HasSuffix key "Transactions") eqn:Hsuf; cbn [negb].
    + destruct (json_Unmarshal_txns raw) as [err|txns] eqn:Hraw.
      * intros [= <- <-]. exists m. split; [reflexivity|]. split; [auto|].
        right. exists key, raw, err. repeat split; auto. now left.
      * intros Hrun. destruct (IH _ Hrun) as (m' & -> & Hkeys & Hr).
        exists m'. split; [reflexivity|]. split.
        -- intros k. destruct (Hkeys k) as [Hsame | (Hk & r0 & t0 & Hin & Hdec & Hl)].
           ++ destruct (decide (key = k)) as [->|Hne].
              ** rewrite lookup_insert_eq in Hsame. right. split; [assumption|].
                 exists raw, txns. repeat split; auto. now left.
              ** rewrite lookup_insert_ne in Hsame by assumption. now left.
           ++ right. split; [assumption|]. exists r0, t0. repeat split; auto. now right.
        -- destruct Hr as [Hr | (k & r0 & e0 & Hin & Hk & Hdec & Hr)]; [now left|].
           right. exists k, r0, e0. repeat split; auto. now right.
    + intros Hrun. destruct (IH _ Hrun) as (m' & -> & Hkeys & Hr).
      exists m'. split; [reflexivity|]. split.
      * intros k. destruct (Hkeys k) as [Hsame | (Hk & r0 & t0 & Hin & Hdec & Hl)];
          [now left|].
        right. split; [assumption|]. exists r0, t0. repeat split; auto. now right.
      * destruct Hr as [Hr | (k & r0 & e0 & Hin & Hk & Hdec & Hr)]; [now left|].
        right. exists k, r0, e0. repeat split; auto. now right.
Qed.

(** When the loop returns [nil] over entries of distinct keys, every key
    that ends in "Transactions" holds its decoded value. *)
Lemma UnmarshalJSON_range_stored (entries : list (string * string)) (m m' : (gmap string (list Transaction))) :
  NoDup entries.*1 ->
  UnmarshalJSON_range entries (Some m) = (Some m', Val None) ->
  forall key raw txns,
    (key, raw) ∈ entries -> strings_HasSuffix key "Transactions" = true ->
    json_Unmarshal_txns raw = inr txns -> m' !! key = Some txns.
Proof.
  revert m. induction entries as [|[k0 r0] entries IH]; intros m Hnd Hrun key raw txns Hin.
  - now apply elem_of_nil in Hin.
  - cbn [fmap list_fmap fst] in Hnd. apply NoDup_cons in Hnd as [Hk0 Hnd].
    cbn [UnmarshalJSON_range] in Hrun. intros Hsuf Hdec.
    apply elem_of_cons in Hin as [ [= ? ?] | Hin]; subst.
    + rewrite Hsuf, Hdec in Hrun. cbn [negb] in Hrun.
      destruct (UnmarshalJSON_range_effect _ _ _ _ Hrun) as (m2 & [= <-] & Hkeys & _).
      destruct (Hkeys k0) as [Hsame | (_ & r1 & t1 & Hin1 & _)].
      * now rewrite Hsame, lookup_insert_eq.
      * exfalso. apply Hk0. apply list_elem_of_fmap. now exists (k0, r1).
    + destruct (strings_HasSuffix k0 "Transactions"); cbn [negb] in Hrun.
      * destruct (json_Unmarshal_txns r0) as [err|t0]; [discriminate|]. eauto.
      * eauto.
Qed.

(** X16.  [TransactionList.UnmarshalJSON] on a map that is not nil, when it
    returns [nil].  Let the data decode to the JSON object [payload].
    The call returns [nil] exactly when the value of every key of the
    object that ends in "Transactions" decodes to a list of transactions,
    whatever the order in which the [range] loop visits the object; then
    the map holds the decoded list under each of these keys, and under
    every other key what it held before. *)
Theorem TransactionList_UnmarshalJSON_success (m : (gmap string (list Transaction))) (data : string)
    (payload : gmap string string) :
  json_Unmarshal_object data = inr payload ->
  ((exists m', TransactionList_UnmarshalJSON (Some m) data = (Some m', Val None)) <->
   (forall key raw,
      payload !! key = Some raw -> strings_HasSuffix key "Transactions" = true ->
      exists txns, json_Unmarshal_txns raw = inr txns)) /\
  (forall m',
     TransactionList_UnmarshalJSON (Some m) data = (Some m', Val None) ->
     (forall key raw txns,
        payload !! key = Some raw -> strings_HasSuffix key "Transactions" = true ->
        json_Unmarshal_txns raw = inr txns -> m' !! key = Some txns) /\
     (forall key,
        payload !! key = None \/ strings_HasSuffix key "Transactions" = false ->
        m' !! key = m !! key)).
Proof.
  intros Hobj. unfold TransactionList_UnmarshalJSON. rewrite Hobj.
  assert (forall key raw, (key, raw) ∈ range_order payload <-> payload !! key = Some raw)
    as Hmem.
  { intros key raw. rewrite (range_order_perm payload). apply elem_of_map_to_list. }
  assert (NoDup (range_order payload).*1) as Hnd.
  { rewrite (range_order_perm payload). apply NoDup_fst_map_to_list. }
  split.
  - rewrite UnmarshalJSON_range_nil_iff. split; intros Hall key raw Hin; apply Hall;
      now apply Hmem.
  - intros m' Hrun. split.
    + intros key raw txns Hin. apply Hmem in Hin.
      now apply (UnmarshalJSON_range_stored _ _ _ Hnd Hrun).
    + intros key Hkey.
      destruct (UnmarshalJSON_range_effect _ _ _ _ Hrun) as (m2 & [= <-] & Hkeys & _).
      destruct (Hkeys key) as [Hsame | (Hsuf & raw & txns & Hin & _)]; [assumption|].
      apply Hmem in Hin. destruct Hkey; congruence.
Qed.

(** X17.  [TransactionList.UnmarshalJSON] on a map that is not nil, whatever it
    returns.  It never panics.  When the data do not decode to an object
    the map is as it was.  Otherwise the map is changed only under keys
    of the object that end in "Transactions", each of which holds what it
    held before or the decoded list of its value; and an error returned
    is the error of a value under such a key, the entries stored before
    it staying in the map. *)
Theorem TransactionList_UnmarshalJSON_effect (m : (gmap string (list Transaction))) (data : string)
    (t' : option (gmap string (list Transaction))) (r : Outcome (option error)) :
  TransactionList_UnmarshalJSON (Some m) data = (t', r) ->
  (forall msg, r <> Panic msg) /\
  (forall err, json_Unmarshal_object data = inl err -> t' = Some m /\ r = Val (Some err)) /\
  (forall payload,
     json_Unmarshal_object data = inr payload ->
     exists m',
       t' = Some m' /\
       (forall key,
          m' !! key = m !! key \/
          (strings_HasSuffix key "Transactions" = true /\
           exists raw txns,
             payload !! key = Some raw /\ json_Unmarshal_txns raw = inr txns /\
             m' !! key = Some txns)) /\
       (r = Val None \/
        exists key raw err,
          payload !! key = Some raw /\ strings_HasSuffix key "Transactions" = true /\
          json_Unmarshal_txns raw = inl err /\ r = Val (Some err))).
Proof.
  unfold TransactionList_UnmarshalJSON.
  destruct (json_Unmarshal_object data) as [err|payload] eqn:Hobj.
  { intros [= <- <-]. split; [discriminate|]. split; [|discriminate].
    intros e [= <-]. auto. }
  intros Hrun.
  assert (forall key raw, (key, raw) ∈ range_order payload <-> payload !! key = Some raw)
    as Hmem.
  { intros key raw. rewrite (range_order_perm payload). apply elem_of_map_to_list. }
  destruct (UnmarshalJSON_range_effect _ _ _ _ Hrun) as (m' & -> & Hkeys & Hr).
  split; [|split; [discriminate|]].
  - intros msg ->. destruct Hr as [Hr | (k & r0 & e0 & _ & _ & _ & Hr)]; discriminate.
  - intros p [= <-]. exists m'. split; [reflexivity|]. split.
    + intros key. destruct (Hkeys key) as [Hsame | (Hsuf & raw & txns & Hin & Hdec & Hl)];
        [now left|].
      right. split; [assumption|]. exists raw, txns. apply Hmem in Hin. auto.
    + destruct Hr as [Hr | (k & r0 & e0 & Hin & Hk & Hdec & Hr)]; [now left|].
      right. exists k, r0, e0. apply Hmem in Hin. auto.
Qed.

(** X18.  [TransactionList.UnmarshalJSON] on a nil map.  Let the data decode to
    the JSON object [payload].  The call returns [nil] exactly when no
    key of the object ends in "Transactions"; otherwise it panics on the
    assignment to the nil map, or returns the error of a value it could
    not decode.  The map stays nil. *)
Theorem TransactionList_UnmarshalJSON_nil_map (data : string)
    (payload : gmap string string)
    (t' : option (gmap string (list Transaction))) (r : Outcome (option error)) :
  json_Unmarshal_object data = inr payload ->
  TransactionList_UnmarshalJSON None data = (t', r) ->
  t' = None /\
  (r = Val None <->
   forall key raw,
     payload !! key = Some raw -> strings_HasSuffix key "Transactions" = false) /\
  (r = Val None \/ r = Panic "assignment to entry in nil map" \/
   exists key raw err,
     payload !! key = Some raw /\ strings_HasSuffix key "Transactions" = true /\
     json_Unmarshal_txns raw = inl err /\ r = Val (Some err)).
Proof.
  intros Hobj. unfold TransactionList_UnmarshalJSON. rewrite Hobj.
  assert (forall key raw, (key, raw) ∈ range_order payload <-> payload !! key = Some raw)
    as Hmem.
  { intros key raw. rewrite (range_order_perm payload). apply elem_of_map_to_list. }
  assert (forall entries,
            UnmarshalJSON_range entries None = (t', r) ->
            t' = None /\
            (r = Val None <->
             forall key raw,
               (key, raw) ∈ entries -> strings_HasSuffix key "Transactions" = false) /\
            (r = Val None \/ r = Panic "assignment to entry in nil map" \/
             exists key raw err,
               (key, raw) ∈ entries /\ strings_HasSuffix key "Transactions" = true /\
               json_Unmarshal_txns raw = inl err /\ r = Val (Some err))) as Hloop.
  { induction entries as [|[k0 r0] entries IH].
    - intros [= <- <-]. split; [reflexivity|]. split; [|now left].
      split; [intros _ key raw Hin; now apply elem_of_nil in Hin | reflexivity].
    - cbn [UnmarshalJSON_range].
      destruct (strings_HasSuffix k0 "Transactions") eqn:Hsuf; cbn [negb].
      + destruct (json_Unmarshal_txns r0) as [err|txns] eqn:Hdec; intros [= <- <-];
          (split; [reflexivity|]); split.
        * split; [discriminate|]. intros Hall.
          specialize (Hall k0 r0 (list_elem_of_here _ _)). congruence.
        * right. right. exists k0, r0, err. repeat split; auto. now left.
        * split; [discriminate|]. intros Hall.
          specialize (Hall k0 r0 (list_elem_of_here _ _)). congruence.
        * right. now left.
      + intros Hrun. destruct (IH Hrun) as (-> & Hiff & Hr).
        split; [reflexivity|]. split.
        * rewrite Hiff. split.
          -- intros Hall key raw Hin.
             apply elem_of_cons in Hin as [ [= ? ?] | Hin]; subst; eauto.
          -- intros Hall key raw Hin. apply (Hall key raw). now right.
        * destruct Hr as [Hr | [Hr | (k & r1 & e1 & Hin & Hk & Hd & Hr)]]; auto.
          right. right. exists k, r1, e1. repeat split; auto. now right. }
  intros Hrun. destruct (Hloop _ Hrun) as (-> & Hiff & Hr).
  split; [reflexivity|]. split.
  - rewrite Hiff. split; intros Hall key raw Hin; apply (Hall key raw); now apply Hmem.
  - destruct Hr as [Hr | [Hr | (k & r1 & e1 & Hin & Hk & Hd & Hr)]]; auto.
    right. right. exists k, r1, e1. apply Hmem in Hin. auto.
Qed.

End TransactionListProperties.

(** ** The REST accessors *)

Section AccessorProperties.
Context `{Platform} `{ApiPlatform}.

(** The runs of [do]: [Init] first, then the signer, then the HTTP
    client, each only when the one before succeeded. *)
Lemma Client_do_run (c : Client) (req : ApiRequest) (aw : ApiWorld) :
  Client_do c req aw =
  match Init c (base aw) with
  | (Panic msg, w') => (Panic msg, {| base := w'; sent := sent aw |})
  | (Val (c', Some err), w') => (Val (c', inl err), {| base := w'; sent := sent aw |})
  | (Val (c', None), w') =>
      match signer c' with
      | None => (Panic "runtime error: invalid memory address or nil pointer dereference",
                 {| base := w'; sent := sent aw |})
      | Some s =>
          match signer_Sign s req (clientConfig c') (userConfig c') with
          | (_, Some err) => (Val (c', inl err), {| base := w'; sent := sent aw |})
          | (req', None) =>
              (match http_Do c' (sent aw) req' with
               | Val x => Val (c', x)
               | Panic msg => Panic msg
               end,
               {| base := w'; sent := sent aw ++ [req'] |})
          end
      end
  end.
Proof.
  unfold Client_do, Client_sign, lift, HTTPClient_Do, panicA, mbind, MA_bind, mret, MA_ret.
  cbn [base sent].
  destruct (Init c (base aw)) as [[[c' [err|]]|msg] w']; [reflexivity| |reflexivity].
  destruct (signer c') as [s|]; [|reflexivity].
  destruct (signer_Sign s req (clientConfig c') (userConfig c')) as [req' [err|]];
    [reflexivity|].
  cbn [base sent]. destruct (http_Do c' (sent aw) req'); reflexivity.
Qed.

(** X19.  A cached client makes no second token exchange.  When [do] is called
    on a client of the cache, the world of the package is as it was: no
    POST to the token endpoint and no UUID drawn.  The client is as it
    was.  When the signer returns an error, [do] returns that error and
    nothing is handed to the HTTP client; otherwise the signed request,
    and only it, is handed to the HTTP client, whose outcome is that of
    [do]. *)
Theorem Client_do_cached (aw aw' : ApiWorld) (k : string) (c : Client)
    (req : ApiRequest) (r : Outcome (Client * (error + Response))) :
  reachable (base aw) -> clients (base aw) !! k = Some c ->
  Client_do c req aw = (r, aw') ->
  base aw' = base aw /\
  match signer_Sign HmacSha1Signer req (clientConfig c) (userConfig c) with
  | (_, Some err) => r = Val (c, inl err) /\ sent aw' = sent aw
  | (req', None) =>
      sent aw' = sent aw ++ [req'] /\
      match http_Do c (sent aw) req' with
      | Val x => r = Val (c, x)
      | Panic msg => r = Panic msg
      end
  end.
Proof.
  intros Hreach Hc Hrun.
  destruct (clients_ready _ _ _ Hreach Hc) as (_ & _ & Hi & _ & _ & Hs).
  rewrite Client_do_run, (Init_initialized _ _ Hi), Hs in Hrun.
  destruct (signer_Sign HmacSha1Signer req (clientConfig c) (userConfig c))
    as [req' [err|]]; injection Hrun as <- <-; cbn [base sent].
  - auto.
  - split; [reflexivity|]. split; [reflexivity|].
    destruct (http_Do c (sent aw) req'); reflexivity.
Qed.

(** X20.  Nothing is sent before [Init] and the signer have succeeded.  A call
    of [do] hands one request at most to the HTTP client and makes one
    POST at most to the token endpoint.  When a request is handed over,
    [Init] has returned nil, the client is initialized, and the request
    is the one the signer of the client made, without error, of the
    request given.  When [Init] returns an error, [do] returns that
    error and nothing is handed to the HTTP client. *)
Theorem Client_do_after_Init (c : Client) (req : ApiRequest) (aw aw' : ApiWorld)
    (r : Outcome (Client * (error + Response))) :
  Client_do c req aw = (r, aw') ->
  (posts (base aw') = posts (base aw) \/
   exists p, posts (base aw') = posts (base aw) ++ [p]) /\
  (sent aw' = sent aw \/
   exists c' s req',
     sent aw' = sent aw ++ [req'] /\
     Init c (base aw) = (Val (c', None), base aw') /\
     initialized c' = true /\
     signer c' = Some s /\
     signer_Sign s req (clientConfig c') (userConfig c') = (req', None)) /\
  (forall c' err w',
     Init c (base aw) = (Val (c', Some err), w') ->
     r = Val (c', inl err) /\ sent aw' = sent aw /\ base aw' = w').
Proof.
  intros Hrun. rewrite Client_do_run in Hrun.
  destruct (Init c (base aw)) as [ri w'] eqn:HInit.
  assert (posts w' = posts (base aw) \/ exists p, posts w' = posts (base aw) ++ [p])
    as Hposts.
  { destruct (initialized c) eqn:Hi.
    - rewrite (Init_initialized _ _ Hi) in HInit. injection HInit as _ <-. now left.
    - rewrite (Init_fresh _ _ Hi) in HInit.
      destruct (loadOAuthUserConfig _ (base aw)) as [r0 w0] eqn:Hload.
      assert (w' = w0) as ->.
      { destruct r0 as [[c0 [e|]]|msg]; now injection HInit as _ <-. }
      now apply loadOAuthUserConfig_frame in Hload. }
  destruct ri as [[c' [err|]]|msg].
  - injection Hrun as <- <-. cbn [base sent].
    split; [assumption|]. split; [now left|].
    intros c2 err2 w2 [= <- <- <-]. auto.
  - assert (initialized c' = true) as Hi'.
    { destruct (initialized c) eqn:Hi.
      - rewrite (Init_initialized _ _ Hi) in HInit. congruence.
      - rewrite (Init_fresh _ _ Hi) in HInit.
        destruct (loadOAuthUserConfig _ (base aw)) as [[[c0 [e|]]|msg] w0];
          [discriminate | | discriminate].
        injection HInit as <- _. reflexivity. }
    destruct (signer c') as [s|] eqn:Hs.
    + destruct (signer_Sign s req (clientConfig c') (userConfig c'))
        as [req' [err|]] eqn:Hsign; injection Hrun as <- <-; cbn [base sent].
      * split; [assumption|]. split; [now left|]. intros ? ? ? [=].
      * split; [assumption|]. split; [|intros ? ? ? [=]].
        right. exists c', s, req'. auto.
    + injection Hrun as <- <-. cbn [base sent].
      split; [assumption|]. split; [now left|]. intros ? ? ? [=].
  - injection Hrun as <- <-. cbn [base sent].
    split; [assumption|]. split; [now left|]. intros ? ? ? [=].
Qed.

(** What [do] returns comes from the HTTP client, or no request was
    handed to it. *)
Lemma Client_do_answer (c : Client) (req : ApiRequest) (aw aw' : ApiWorld)
    (r : Outcome (Client * (error + Response))) :
  Client_do c req aw = (r, aw') ->
  match r with
  | Val (c', inr resp) =>
      exists req', sent aw' = sent aw ++ [req'] /\
                   http_Do c' (sent aw) req' = Val (inr resp)
  | Val (c', inl err) =>
      sent aw' = sent aw \/
      exists req', sent aw' = sent aw ++ [req'] /\
                   http_Do c' (sent aw) req' = Val (inl err)
  | Panic _ => True
  end.
Proof.
  intros Hrun. rewrite Client_do_run in Hrun.
  destruct (Init c (base aw)) as [[[c' [err|]]|msg] w'].
  - injection Hrun as <- <-. now left.
  - destruct (signer c') as [s|]; [|now injection Hrun as <- <-].
    destruct (signer_Sign s req (clientConfig c') (userConfig c')) as [req' [err|]].
    + injection Hrun as <- <-. now left.
    + destruct (http_Do c' (sent aw) req') as [[err|resp]|msg] eqn:Hdo;
        injection Hrun as <- <-; cbn [sent]; eauto.
  - now injection Hrun as <- <-.
Qed.

Lemma app_singleton_neq {A : Type} (l : list A) (x : A) : l ++ [x] <> l.
Proof.
  intros E. apply (f_equal length) in E. rewrite length_app in E. simpl in E. lia.
Qed.

(** The answer that a run of [do] passes on, when one request was handed
    to the HTTP client and the client answered it with a response. *)
Lemma Client_do_response (c c' : Client) (req req' : ApiRequest) (aw aw' : ApiWorld)
    (x : error + Response) (resp : Response) :
  Client_do c req aw = (Val (c', x), aw') ->
  sent aw' = sent aw ++ [req'] ->
  http_Do c' (sent aw) req' = Val (inr resp) ->
  x = inr resp.
Proof.
  intros Hrun Hsent Hdo. apply Client_do_answer in Hrun.
  destruct x as [err|resp1].
  - destruct Hrun as [Hsame | (req2 & Hsent2 & Hdo2)].
    + rewrite Hsame in Hsent. symmetry in Hsent. now apply app_singleton_neq in Hsent.
    + rewrite Hsent2 in Hsent. apply app_inj_tail in Hsent as [_ ->]. congruence.
  - destruct Hrun as (req2 & Hsent2 & Hdo2).
    rewrite Hsent2 in Hsent. apply app_inj_tail in Hsent as [_ ->]. congruence.
Qed.

(** X21.  Accounts come from a 200 answer only.  Let [GetCustomerAccounts] or
    [GetLoginAccounts] return.  When it returns accounts, one request was
    handed to the HTTP client, the answer had status 200, and the
    accounts are those decoded from its body.  When the request was
    answered with another status, the call returns the error
    [CAD API returned status code N], with N the status in decimal. *)
Theorem accounts_from_status_200 (c c' : Client) (run : MA (Client * (error + list Account)))
    (aw aw' : ApiWorld) (x : error + list Account) :
  run = GetCustomerAccounts c \/ (exists loginID, run = GetLoginAccounts c loginID) ->
  run aw = (Val (c', x), aw') ->
  (forall accounts, x = inr accounts ->
     exists req' resp,
       sent aw' = sent aw ++ [req'] /\
       http_Do c' (sent aw) req' = Val (inr resp) /\
       StatusCode resp = http_StatusOK /\
       json_Decode_accountList (Body resp) = inr accounts) /\
  (forall req' resp,
     sent aw' = sent aw ++ [req'] ->
     http_Do c' (sent aw) req' = Val (inr resp) ->
     StatusCode resp <> http_StatusOK ->
     x = inl ("CAD API returned status code " +:+ fmt_d (StatusCode resp))).
Proof.
  intros Hwhich Hrun.
  assert (exists req,
    run aw =
    match Client_do c req aw with
    | (Val (c1, inl err), aw1) => (Val (c1, inl err), aw1)
    | (Val (c1, inr resp), aw1) =>
        (Val (c1,
           if decide (StatusCode resp ≠ http_StatusOK) then
             inl ("CAD API returned status code " +:+ fmt_d (StatusCode resp))
           else json_Decode_accountList (Body resp)), aw1)
    | (Panic msg, aw1) => (Panic msg, aw1)
    end \/ exists err, run aw = (Val (c, inl err), aw)) as (req & Hshape).
  { destruct Hwhich as [-> | (loginID & ->)];
      unfold GetCustomerAccounts, GetLoginAccounts;
      (destruct (Client_request c "GET" _ None) as [err|req];
       [exists {| req_Method := ""; req_URL := ""; req_RawQuery := "";
                  req_Header := ∅; req_Body := "" |}; right; exists err; reflexivity|]);
      exists req; left; unfold mbind, MA_bind, mret, MA_ret;
      destruct (Client_do c req aw) as [[[c1 [err|resp]]|msg] aw1]; try reflexivity;
      destruct (decide (StatusCode resp ≠ http_StatusOK)); try reflexivity;
      destruct (json_Decode_accountList (Body resp)); reflexivity. }
  destruct Hshape as [Hshape | (err & Hshape)]; rewrite Hshape in Hrun.
  2:{ injection Hrun as <- <- <-. split; [discriminate|].
      intros req' resp Hsent. symmetry in Hsent. now apply app_singleton_neq in Hsent. }
  destruct (Client_do c req aw) as [[[c1 [err|resp]]|msg] aw1] eqn:Hdo;
    [| |discriminate].
  - injection Hrun as <- <- <-. split; [discriminate|].
    intros req' resp Hsent Hanswer _.
    pose proof (Client_do_response _ _ _ _ _ _ _ _ Hdo Hsent Hanswer). discriminate.
  - injection Hrun as <- <- <-. split.
    + intros accounts Hx. apply Client_do_answer in Hdo as (req' & Hsent & Hanswer).
      exists req', resp. split; [assumption|]. split; [assumption|].
      destruct (decide (StatusCode resp ≠ http_StatusOK)) as [Hne|Heq]; [discriminate|].
      split; [|assumption]. now apply dec_stable.
    + intros req' resp' Hsent Hanswer Hne.
      pose proof (Client_do_response _ _ _ _ _ _ _ _ Hdo Hsent Hanswer) as [= <-].
      now rewrite decide_True.
Qed.

(** X22.  Transactions come from a 200 answer only.  Let [AccountTransactions]
    return.  When it returns a transaction list, one request was handed
    to the HTTP client, the answer had status 200, and the list is the
    one decoded from its body.  When the request was answered with
    another status, the call returns the error
    [CAD API returned status code N], with N the status in decimal. *)
Theorem transactions_from_status_200 (c c' : Client) (accountID : Z)
    (startDate : Time) (endDate : option Time)
    (aw aw' : ApiWorld) (x : error + TransactionList) :
  AccountTransactions c accountID startDate endDate aw = (Val (c', x), aw') ->
  (forall payload, x = inr payload ->
     exists req' resp,
       sent aw' = sent aw ++ [req'] /\
       http_Do c' (sent aw) req' = Val (inr resp) /\
       StatusCode resp = http_StatusOK /\
       json_Decode_TransactionList (Body resp) = inr payload) /\
  (forall req' resp,
     sent aw' = sent aw ++ [req'] ->
     http_Do c' (sent aw) req' = Val (inr resp) ->
     StatusCode resp <> http_StatusOK ->
     x = inl ("CAD API returned status code " +:+ fmt_d (StatusCode resp))).
Proof.
  intros Hrun. unfold AccountTransactions in Hrun.
  destruct (Client_request c "GET" _ None) as [err|req0].
  { injection Hrun as <- <- <-. split; [discriminate|].
    intros req' resp Hsent. symmetry in Hsent. now apply app_singleton_neq in Hsent. }
  cbv zeta in Hrun. unfold mbind, MA_bind, mret, MA_ret in Hrun.
  destruct (Client_do c _ aw) as [[[c1 [err|resp]]|msg] aw1] eqn:Hdo;
    [| |discriminate].
  - injection Hrun as <- <- <-. split; [discriminate|].
    intros req' resp Hsent Hanswer _.
    pose proof (Client_do_response _ _ _ _ _ _ _ _ Hdo Hsent Hanswer). discriminate.
  - assert (c' = c1 /\ aw' = aw1 /\
            x = if decide (StatusCode resp ≠ http_StatusOK) then
                  inl ("CAD API returned status code " +:+ fmt_d (StatusCode resp))
                else json_Decode_TransactionList (Body resp)) as (-> & -> & ->).
    { destruct (decide (StatusCode resp ≠ http_StatusOK));
        [|destruct (json_Decode_TransactionList (Body resp))];
        injection Hrun as <- <- <-; auto. }
    clear Hrun. split.
    + intros payload Hx. apply Client_do_answer in Hdo as (req' & Hsent & Hanswer).
      exists req', resp. split; [assumption|]. split; [assumption|].
      destruct (decide (StatusCode resp ≠ http_StatusOK)) as [Hne|Heq]; [discriminate|].
      split; [|assumption]. now apply dec_stable.
    + intros req' resp' Hsent Hanswer Hne.
      pose proof (Client_do_response _ _ _ _ _ _ _ _ Hdo Hsent Hanswer) as [= <-].
      now rewrite decide_True.
Qed.

(** X23.  [InstitutionDetails] does not look at the status.  When it returns
    and the request handed to the HTTP client was answered, the result
    is what the decoder makes of the body of the answer, whatever the
    status code: the body of an answer whose status is not 200 is
    decoded as details, and no error names the status. *)
Theorem InstitutionDetails_ignores_status (c c' : Client) (institutionID : Z)
    (aw aw' : ApiWorld) (x : error + InstitutionDetails)
    (req' : ApiRequest) (resp : Response) :
  Client_InstitutionDetails c institutionID aw = (Val (c', x), aw') ->
  sent aw' = sent aw ++ [req'] ->
  http_Do c' (sent aw) req' = Val (inr resp) ->
  x = json_Decode_InstitutionDetails (Body resp).
Proof.
  intros Hrun Hsent Hanswer. unfold Client_InstitutionDetails in Hrun.
  destruct (Client_request c "GET" _ None) as [err|req0].
  { injection Hrun as <- <- <-. symmetry in Hsent. now apply app_singleton_neq in Hsent. }
  unfold mbind, MA_bind, mret, MA_ret in Hrun.
  destruct (Client_do c _ aw) as [[[c1 [err|resp1]]|msg] aw1] eqn:Hdo;
    [| |discriminate].
  - injection Hrun as <- <- <-.
    pose proof (Client_do_response _ _ _ _ _ _ _ _ Hdo Hsent Hanswer). discriminate.
  - assert (c' = c1 /\ aw' = aw1 /\ x = json_Decode_InstitutionDetails (Body resp1))
      as (-> & -> & ->).
    { destruct (json_Decode_InstitutionDetails (Body resp1));
        injection Hrun as <- <- <-; auto. }
    now pose proof (Client_do_response _ _ _ _ _ _ _ _ Hdo Hsent Hanswer) as [= <-].
Qed.

End AccessorProperties.

(** ** The properties at work on the test doubles *)

Lemma stub_world_1_reachable :
  @reachable (Stub.platform Stub.endpoint_200) Stub.world_1.
Proof.
  destruct (@stub_world_reachable (Stub.platform Stub.endpoint_200) 0) as [t0 Hs].
  exists t0. eapply rtc_r; [exact Hs|]. apply step_NewClient.
Defined.

Lemma stub_world_1_client : clients Stub.world_1 !! "alice" = Some Stub.client.
Proof. vm_compute. reflexivity. Defined.

Lemma Init_idempotent_witness :
  initialized Stub.client = true /\
  @Init (Stub.platform Stub.endpoint_200) Stub.client Stub.world_1 =
    (Val (Stub.client, None), Stub.world_1).
Proof.
  assert (@Init (Stub.platform Stub.endpoint_200) StubExt.new_client (Stub.world 0) =
          (Val (Stub.client, None),
           (@Init (Stub.platform Stub.endpoint_200) StubExt.new_client (Stub.world 0)).2))
    as Hrun by (vm_compute; reflexivity).
  destruct (@Init_idempotent (Stub.platform Stub.endpoint_200) _ _ _ _ Hrun)
    as [Hi Hagain].
  split; [exact Hi | apply Hagain].
Defined.

Lemma Init_failure_retry_witness :
  exists c' w',
    @Init (Stub.platform Stub.endpoint_401) StubExt.new_client (Stub.world 0) =
      (Val (c', Some "authentication error: 401 Unauthorized OAuth oauth_problem=signature_invalid"),
       w') /\
    initialized c' = false /\ userConfig c' = None /\
    @Init (Stub.platform Stub.endpoint_200) c' (Stub.world 0) =
    @Init (Stub.platform Stub.endpoint_200) StubExt.new_client (Stub.world 0).
Proof.
  pose (c1 := set_signer (set_clientConfig StubExt.new_client (Some {|
                cc_ConsumerKey := "consumer-key";
                cc_ConsumerSecret := "consumer-secret" |})) (Some HmacSha1Signer)).
  assert (@Init (Stub.platform Stub.endpoint_401) StubExt.new_client (Stub.world 0) =
          (Val (c1, Some "authentication error: 401 Unauthorized OAuth oauth_problem=signature_invalid"),
           (@Init (Stub.platform Stub.endpoint_401) StubExt.new_client (Stub.world 0)).2))
    as Hrun by (vm_compute; reflexivity).
  destruct (@Init_failure_retry (Stub.platform Stub.endpoint_401)
              StubExt.new_client c1 (Stub.world 0) _ _ eq_refl Hrun)
    as (Hi & Hu & _).
  exists c1. eexists. split; [exact Hrun|]. split; [exact Hi|]. split; [exact Hu|].
  vm_compute. reflexivity.
Defined.

Lemma Init_configuration_witness :
  clientConfig Stub.client =
    Some {| cc_ConsumerKey := "consumer-key"; cc_ConsumerSecret := "consumer-secret" |} /\
  exists req,
    posts (@Init (Stub.platform Stub.endpoint_200) StubExt.new_client (Stub.world 0)).2 =
      posts (Stub.world 0) ++ [req] /\
    req_url req = AccessTokenEndpoint /\
    req_form req !! "oauth_consumer_key" = Some ["consumer-key"].
Proof.
  assert (@Init (Stub.platform Stub.endpoint_200) StubExt.new_client (Stub.world 0) =
          (Val (Stub.client, None),
           (@Init (Stub.platform Stub.endpoint_200) StubExt.new_client (Stub.world 0)).2))
    as Hrun by (vm_compute; reflexivity).
  destruct (@Init_configuration (Stub.platform Stub.endpoint_200)
              StubExt.new_client Stub.client (Stub.world 0) _ eq_refl Hrun)
    as (Hcc & _ & _ & _ & _ & _ & _ & Hreq).
  split; [exact Hcc | exact Hreq].
Defined.

Lemma cached_client_initialized_witness :
  CustomerID Stub.client = "alice" /\ initialized Stub.client = true /\
  signer Stub.client = Some HmacSha1Signer.
Proof.
  destruct (@cached_client_initialized (Stub.platform Stub.endpoint_200)
              Stub.world_1 "alice" Stub.client
              stub_world_1_reachable stub_world_1_client)
    as (Hid & _ & Hi & _ & _ & Hs).
  split; [exact Hid|]. split; [exact Hi | exact Hs].
Defined.

Lemma cached_client_timer_witness :
  exists deadline,
    (deadline, "alice") ∈ timers Stub.world_1 /\
    now Stub.world_1 < deadline <= now Stub.world_1 + time_Minute * 30.
Proof.
  exact (@cached_client_timer (Stub.platform Stub.endpoint_200)
           Stub.world_1 "alice" Stub.client
           stub_world_1_reachable stub_world_1_client).
Defined.

Lemma cache_empty_after_30_minutes_witness :
  clients (advance (time_Minute * 30) Stub.world_1) = ∅ /\
  timers (advance (time_Minute * 30) Stub.world_1) = [].
Proof.
  apply (@cache_empty_after_30_minutes (Stub.platform Stub.endpoint_200)
           Stub.world_1 (time_Minute * 30) stub_world_1_reachable).
  apply Z.le_refl.
Defined.

Lemma NewClient_cache_effect_witness :
  clients Stub.world_1 !! "alice" = Some Stub.client /\
  clients Stub.world_1 !! "bob" = clients (Stub.world 0) !! "bob".
Proof.
  destruct (@NewClient_cache_effect (Stub.platform Stub.endpoint_200)
              "alice" (Stub.world 0) Stub.world_1 _ stub_first_call)
    as (Hiff & Hother & _).
  split; [now apply Hiff | apply Hother; discriminate].
Defined.


Lemma NewClient_without_private_key_witness :
  (@NewClient (Stub.platform Stub.endpoint_200) "alice" StubExt.world_no_key).1 =
    Panic "runtime error: invalid memory address or nil pointer dereference" /\
  posts (@NewClient (Stub.platform Stub.endpoint_200) "alice" StubExt.world_no_key).2 =
    posts StubExt.world_no_key.
Proof.
  destruct (@NewClient_without_private_key (Stub.platform Stub.endpoint_200)
              "alice" StubExt.world_no_key _ _ eq_refl eq_refl
              (surjective_pairing _))
    as (_ & Hposts & _ & Hpanic).
  split; [|exact Hposts].
  eapply Hpanic; [discriminate | vm_compute; reflexivity ..].
Defined.

Lemma NewClient_panics_without_uuid_witness :
  @NewClient StubExt.platform_no_uuid "alice" (Stub.world 0) =
    (Panic "unexpected EOF", set_draws (Stub.world 0) 1).
Proof.
  destruct (@NewClient_panics_without_uuid StubExt.platform_no_uuid
              "alice" (Stub.world 0) "unexpected EOF")
    as [Hcall _]; [discriminate | reflexivity | reflexivity | exact Hcall].
Defined.

Lemma UnmarshalJSON_rounds_towards_epoch_witness :
  UnmarshalJSON 5 "-999" = (0, None).
Proof.
  destruct (UnmarshalJSON_rounds_towards_epoch 5 "-999" (-999))
    as (stored & Hrun & _ & _ & _ & _ & Hzero);
    [reflexivity | unfold in_int64; lia |].
  rewrite Hrun. rewrite Hzero by lia. reflexivity.
Defined.

Lemma UnmarshalJSON_monotone_witness :
  exists stored1 stored2,
    UnmarshalJSON 0 "1500" = (stored1, None) /\
    UnmarshalJSON 0 "1999" = (stored2, None) /\
    stored1 <= stored2.
Proof.
  apply (UnmarshalJSON_monotone 0 0 "1500" "1999" 1500 1999);
    [reflexivity | reflexivity | unfold in_int64; lia | unfold in_int64; lia | lia].
Defined.

Lemma SetDefaultPrivateKeyFromPEM_nil_or_panic_witness :
  @reachable (Stub.platform Stub.endpoint_200)
    (@SetDefaultPrivateKeyFromPEM StubExt.pem (inr "-MIIBOgIBAAJBAK") (init_world 0)).2 /\
  posts (@SetDefaultPrivateKeyFromPEM StubExt.pem (inr "-MIIBOgIBAAJBAK") (init_world 0)).2 =
    posts (init_world 0).
Proof.
  destruct (@SetDefaultPrivateKeyFromPEM_nil_or_panic
              (Stub.platform Stub.endpoint_200) StubExt.pem
              (inr "-MIIBOgIBAAJBAK") (init_world 0) _ _ (surjective_pairing _))
    as (_ & _ & Hreach & _ & _ & Hposts & _).
  split; [|exact Hposts].
  apply Hreach; [reflexivity|]. exists 0. apply rtc_refl.
Defined.

Lemma SetDefaultPrivateKeyFromPEM_failure_witness :
  DefaultPrivateKey (Stub.world 0) = Some Stub.key /\
  DefaultPrivateKey
    (@SetDefaultPrivateKeyFromPEM StubExt.pem (inr "-garbage") (Stub.world 0)).2 = None.
Proof.
  split; [reflexivity|].
  assert (@SetDefaultPrivateKeyFromPEM StubExt.pem (inr "-garbage") (Stub.world 0) =
          (Panic "bad private key: asn1: structure error: tags don't match",
           (@SetDefaultPrivateKeyFromPEM StubExt.pem (inr "-garbage") (Stub.world 0)).2))
    as Hrun by reflexivity.
  destruct (@SetDefaultPrivateKeyFromPEM_failure
              (Stub.platform Stub.endpoint_200) StubExt.pem _ _ _ _ Hrun)
    as [Hblock _].
  destruct (Hblock "-garbage" "garbage" eq_refl eq_refl) as (err & _ & _ & Hnone & _).
  exact Hnone.
Defined.

Lemma TransactionList_UnmarshalJSON_success_witness :
  exists m',
    @TransactionList_UnmarshalJSON Z StubExt.json (Some ∅)
      "{bankingTransactions:[1,2],notRefreshedReason:none}" = (Some m', Val None) /\
    m' !! "bankingTransactions" = Some [1; 2] /\
    m' !! "notRefreshedReason" = None.
Proof.
  assert (@json_Unmarshal_object Z StubExt.json
            "{bankingTransactions:[1,2],notRefreshedReason:none}" =
          inr {[ "bankingTransactions" := "[1,2]"; "notRefreshedReason" := "none" ]})
    as Hdec by reflexivity.
  destruct (@TransactionList_UnmarshalJSON_success Z StubExt.json ∅ _ _ Hdec)
    as [_ Hstored].
  assert (@TransactionList_UnmarshalJSON Z StubExt.json (Some ∅)
            "{bankingTransactions:[1,2],notRefreshedReason:none}" =
          (Some {[ "bankingTransactions" := [1; 2] ]}, Val None))
    as Hrun by (vm_compute; reflexivity).
  destruct (Hstored _ Hrun) as [Hin Hout].
  eexists. split; [exact Hrun|]. split.
  - apply (Hin "bankingTransactions" "[1,2]"); vm_compute; reflexivity.
  - rewrite (Hout "notRefreshedReason"); [reflexivity|]. right. vm_compute. reflexivity.
Defined.

Lemma TransactionList_UnmarshalJSON_effect_witness :
  exists m',
    (@TransactionList_UnmarshalJSON Z StubExt.json (Some ∅) "{loanTransactions:[}").1 =
      Some m' /\
    (@TransactionList_UnmarshalJSON Z StubExt.json (Some ∅) "{loanTransactions:[}").2 =
      Val (Some "unexpected end of JSON input").
Proof.
  destruct (@TransactionList_UnmarshalJSON_effect Z StubExt.json ∅
              "{loanTransactions:[}" _ _ (surjective_pairing _))
    as (_ & _ & Hobject).
  destruct (Hobject {[ "loanTransactions" := "[" ]}) as (m' & Hm' & _);
    [reflexivity|].
  exists m'. split; [exact Hm'|]. vm_compute. reflexivity.
Defined.

Lemma TransactionList_UnmarshalJSON_nil_map_witness :
  @TransactionList_UnmarshalJSON Z StubExt.json None
    "{bankingTransactions:[1,2],notRefreshedReason:none}" =
    (None, Panic "assignment to entry in nil map") /\
  @TransactionList_UnmarshalJSON Z StubExt.json None "{}" = (None, Val None).
Proof.
  split; [vm_compute; reflexivity|].
  assert (@json_Unmarshal_object Z StubExt.json "{}" = inr ∅) as Hdec by reflexivity.
  destruct (@TransactionList_UnmarshalJSON_nil_map Z StubExt.json "{}" ∅ _ _
              Hdec (surjective_pairing _))
    as (Hnil & Hiff & _).
  rewrite (surjective_pairing (TransactionList_UnmarshalJSON None "{}")).
  rewrite Hnil. rewrite (proj2 Hiff); [reflexivity|]. intros key raw Hl.
  rewrite lookup_empty in Hl. discriminate.
Defined.

Lemma Client_do_cached_witness :
  base (@Client_do (Stub.platform Stub.endpoint_200) StubExt.api Stub.client
          StubExt.details_request StubExt.api_world_1).2 = Stub.world_1.
Proof.
  destruct (@Client_do_cached (Stub.platform Stub.endpoint_200) StubExt.api
              StubExt.api_world_1 _ "alice" Stub.client StubExt.details_request _
              stub_world_1_reachable stub_world_1_client (surjective_pairing _))
    as [Hbase _].
  exact Hbase.
Defined.

Lemma Client_do_after_Init_witness :
  posts (base (@Client_do (Stub.platform Stub.endpoint_200) StubExt.api
                 StubExt.new_client StubExt.details_request StubExt.api_world_0).2) =
    posts (base StubExt.api_world_0) \/
  exists p,
    posts (base (@Client_do (Stub.platform Stub.endpoint_200) StubExt.api
                   StubExt.new_client StubExt.details_request StubExt.api_world_0).2) =
      posts (base StubExt.api_world_0) ++ [p].
Proof.
  destruct (@Client_do_after_Init (Stub.platform Stub.endpoint_200) StubExt.api
              StubExt.new_client StubExt.details_request StubExt.api_world_0 _ _
              (surjective_pairing _))
    as [Hposts _].
  exact Hposts.
Defined.

Lemma accounts_from_status_200_witness :
  (exists req' resp,
     sent (@GetCustomerAccounts (Stub.platform Stub.endpoint_200) StubExt.api
             Stub.client StubExt.api_world_1).2 = sent StubExt.api_world_1 ++ [req'] /\
     @http_Do StubExt.api Stub.client (sent StubExt.api_world_1) req' = Val (inr resp) /\
     StatusCode resp = http_StatusOK /\
     @json_Decode_accountList StubExt.api (Body resp) = inr ["checking"]) /\
  (@GetLoginAccounts (Stub.platform Stub.endpoint_200) StubExt.api
     Stub.client 12 StubExt.api_world_1).1 =
    Val (Stub.client, inl "CAD API returned status code 404").
Proof.
  split.
  - assert (@GetCustomerAccounts (Stub.platform Stub.endpoint_200) StubExt.api
              Stub.client StubExt.api_world_1 =
            (Val (Stub.client, inr ["checking"]),
             (@GetCustomerAccounts (Stub.platform Stub.endpoint_200) StubExt.api
                Stub.client StubExt.api_world_1).2))
      as Hrun by (vm_compute; reflexivity).
    destruct (@accounts_from_status_200 (Stub.platform Stub.endpoint_200) StubExt.api
                Stub.client Stub.client _ StubExt.api_world_1 _ _
                (or_introl eq_refl) Hrun)
      as [Haccounts _].
    exact (Haccounts ["checking"] eq_refl).
  - vm_compute. reflexivity.
Defined.

Lemma transactions_from_status_200_witness :
  exists req' resp,
    sent (@AccountTransactions (Stub.platform Stub.endpoint_200) StubExt.api
            Stub.client 7 0 None StubExt.api_world_1).2 =
      sent StubExt.api_world_1 ++ [req'] /\
    @http_Do StubExt.api Stub.client (sent StubExt.api_world_1) req' = Val (inr resp) /\
    StatusCode resp = http_StatusOK /\
    @json_Decode_TransactionList StubExt.api (Body resp) = inr [1; 2].
Proof.
  assert (@AccountTransactions (Stub.platform Stub.endpoint_200) StubExt.api
            Stub.client 7 0 None StubExt.api_world_1 =
          (Val (Stub.client, inr [1; 2]),
           (@AccountTransactions (Stub.platform Stub.endpoint_200) StubExt.api
              Stub.client 7 0 None StubExt.api_world_1).2))
    as Hrun by (vm_compute; reflexivity).
  destruct (@transactions_from_status_200 (Stub.platform Stub.endpoint_200) StubExt.api
              Stub.client Stub.client 7 0 None StubExt.api_world_1 _ _ Hrun)
    as [Hlist _].
  exact (Hlist [1; 2] eq_refl).
Defined.

Lemma InstitutionDetails_ignores_status_witness :
  StatusCode StubExt.not_found = 404 /\
  (@Client_InstitutionDetails (Stub.platform Stub.endpoint_200) StubExt.api
     Stub.client 12 StubExt.api_world_1).1 = Val (Stub.client, inr "") /\
  @inr error string "" = @json_Decode_InstitutionDetails StubExt.api (Body StubExt.not_found).
Proof.
  split; [reflexivity|]. split; [vm_compute; reflexivity|].
  assert (@Client_InstitutionDetails (Stub.platform Stub.endpoint_200) StubExt.api
            Stub.client 12 StubExt.api_world_1 =
          (Val (Stub.client, inr ""),
           (@Client_InstitutionDetails (Stub.platform Stub.endpoint_200) StubExt.api
              Stub.client 12 StubExt.api_world_1).2))
    as Hrun by (vm_compute; reflexivity).
  apply (@InstitutionDetails_ignores_status (Stub.platform Stub.endpoint_200) StubExt.api
           Stub.client Stub.client 12 StubExt.api_world_1 _ _
           StubExt.details_request StubExt.not_found Hrun);
    vm_compute; reflexivity.
Defined.
